(** * Order / payment services (HW4): outbox, inbox and conditional debit

    A shallow embedding of [HW4/order_service/main.py] and
    [HW4/payment_service/main.py].

    Conventions of the embedding.
    - Each service owns one relational store; a table with a caller-supplied
      primary key (accounts, inbox) is a finite map from the key, a table
      with an autoincrement key (orders, outbox) is the list of its rows in
      insertion order.  The key given to a new row is the one after the
      largest key of the table (rows are never deleted from these tables).
    - The [Float] columns and the JSON numbers are exact numbers here
      (integers, think of minor currency units): rounding, infinities and
      NaN are outside the model.
    - A JSON text is represented by the object it denotes, so that
      [json.dumps] followed by [json.loads] is the identity; the values of
      an object are numbers and strings, and a message body that
      [json.loads] rejects is [None].
    - Every handler is the body run for ONE message, request or poll; the
      tasks are interleaved at that granularity and the store serialises
      the statements of concurrent transactions.
    - The environment can fail: an oracle [db_ok] tells whether the n-th
      statement of a handler reaches the store, [accepts] whether the broker
      takes a message, [ws_ok] whether a socket takes a frame. *)

From stdpp Require Import gmap strings list fin_maps pretty sorting.

#[local] Open Scope Z_scope.

(** ** JSON values and exceptions *)

Inductive jvalue :=
  | JNum (n : Z)
  | JStr (s : string).

#[global] Instance jvalue_eq_dec : EqDecision jvalue.
Proof. solve_decision. Defined.

Abbreviation json := (gmap string jvalue).

Inductive exn :=
  | JSONDecodeError
  | KeyError (key : string)
  | DBAPIError
  | IntegrityError
  | AMQPError
  | WebSocketError.

#[global] Instance exn_eq_dec : EqDecision exn.
Proof. solve_decision. Defined.

(** The store and the broker are up. *)
Definition all_ok : nat → bool := λ _, true.

(** ** Handlers: state passing with exceptions

    [tx W A] is a computation over the world [W] of a service that either
    returns an [A] or raises; the world reached when it raises is kept, so
    that the enclosing transaction block can roll the store back while the
    effects outside the store (messages already published) stay. *)

Definition tx (W A : Type) : Type := W → W * (exn + A).

#[global] Instance tx_ret {W} : MRet (tx W) := λ A a w, (w, inr a).

#[global] Instance tx_bind {W} : MBind (tx W) := λ A B k c w,
  match c w with
  | (w', inr a) => k a w'
  | (w', inl e) => (w', inl e)
  end.

Definition raise {W A} (e : exn) : tx W A := λ w, (w, inl e).

(** A change of the world that cannot fail. *)
Definition modify {W} (f : W → W) : tx W unit := λ w, (f w, inr tt).

(** One statement sent to the store: it raises when the store is not
    reachable, and otherwise runs [q]. *)
Definition execute {W A} (ok : bool) (q : W → W * A) : tx W A := λ w,
  if ok then let '(w', a) := q w in (w', inr a) else (w, inl DBAPIError).

(** [for x in l: f x] *)
Fixpoint for_each {W A} (f : A → tx W unit) (l : list A) : tx W unit :=
  match l with
  | [] => mret tt
  | x :: l' => f x ;; for_each f l'
  end.

(** [rollback w0 w]: the world after the transaction that started in [w0]
    and reached [w] has been rolled back. *)
Class Store (W : Type) := rollback : W → W → W.

(** [async with session.begin(): body]: commit when the body returns (also
    through [return] or [continue]), roll back when it raises or when the
    commit itself fails. *)
Definition session_begin {W A} `{!Store W} (commit_ok : bool) (body : tx W A)
    : tx W A := λ w0,
  match body w0 with
  | (w, inr a) => if commit_ok then (w, inr a) else (rollback w0 w, inl DBAPIError)
  | (w, inl e) => (rollback w0 w, inl e)
  end.

(** [try: body / except Exception as e: logger.error(...)]: the result is
    the exception that was logged, if any. *)
Definition try_except {W} (body : tx W unit) : tx W (option exn) := λ w,
  match body w with
  | (w', inr _) => (w', inr None)
  | (w', inl e) => (w', inr (Some e))
  end.

(** [data[key]] on a decoded JSON object. *)
Definition getitem {W} (data : json) (key : string) : tx W jvalue :=
  match data !! key with
  | Some v => mret v
  | None => raise (KeyError key)
  end.

(** A value bound to an [Integer] or [Float] column in a statement: the
    driver refuses a string there. *)
Definition as_number {W} (v : jvalue) : tx W Z :=
  match v with
  | JNum n => mret n
  | JStr _ => raise DBAPIError
  end.

(** A value bound to a [String] column. *)
Definition as_text {W} (v : jvalue) : tx W string :=
  match v with
  | JStr s => mret s
  | JNum _ => raise DBAPIError
  end.

(** ** The outbox table and the broker messages (the same in both services) *)

Module Outbox.
Record t := mk {
  id : Z;
  routing_key : string;
  payload : json;
  processed : bool
}.
Definition set_processed (b : bool) (r : t) : t :=
  mk (id r) (routing_key r) (payload r) b.
End Outbox.

Module Message.
(** [body] is the JSON object the bytes decode to, [None] for bytes that
    [json.loads] rejects. *)
Record t := mk {
  message_id : option string;
  routing_key : string;
  body : option json
}.
End Message.

(** Autoincrement key of a new outbox row. *)
Definition next_outbox_id (rows : list Outbox.t) : Z :=
  1 + foldr Z.max 0 (Outbox.id <$> rows).

(** [select(Outbox).where(Outbox.processed == False).limit(10)] *)
Definition select_unprocessed (rows : list Outbox.t) : list Outbox.t :=
  take 10 (filter (λ r, Outbox.processed r = false) rows).

(** The flush of [msg.processed = True]: an update of the row with the key
    of [msg]. *)
Definition mark_processed (key : Z) (rows : list Outbox.t) : list Outbox.t :=
  (λ r, if bool_decide (Outbox.id r = key) then Outbox.set_processed true r else r)
    <$> rows.

(** [aio_pika.Message(body=msg.payload.encode(), message_id=str(msg.id))]
    sent with [routing_key=msg.routing_key]. *)
Definition to_message (msg : Outbox.t) : Message.t :=
  Message.mk (Some (pretty (Outbox.id msg))) (Outbox.routing_key msg)
    (Some (Outbox.payload msg)).

(** A broker that refuses the message with identifier [key] and takes the
    others. *)
Definition refuses (key : string) : Message.t → bool := λ m,
  negb (bool_decide (Message.message_id m = Some key)).

(** The rows of a batch that the broker took before it refused one. *)
Fixpoint accepted_prefix (accepts : Message.t → bool) (batch : list Outbox.t)
    : list Outbox.t :=
  match batch with
  | [] => []
  | r :: rest => if accepts (to_message r) then r :: accepted_prefix accepts rest else []
  end.

(** The updates of a batch, one per published row, as the loop issues them. *)
Definition mark_all (batch : list Outbox.t) (rows : list Outbox.t) : list Outbox.t :=
  foldl (λ rows r, mark_processed (Outbox.id r) rows) rows batch.

(** The table in which exactly the rows with a key of the batch are marked. *)
Definition mark_selected (batch : list Outbox.t) (rows : list Outbox.t) : list Outbox.t :=
  (λ r, if bool_decide (Outbox.id r ∈ Outbox.id <$> batch)
        then Outbox.set_processed true r else r) <$> rows.

(** The exception a poll of the relay logged, if any. *)
Definition logged (r : exn + option exn) : option exn :=
  match r with
  | inr o => o
  | inl e => Some e
  end.

(** What one poll of an outbox relay does to its outbox table ([rows] before,
    [rows'] after) and to the broker ([log] before, [log'] after):
    - the batch is made of unprocessed rows of the table;
    - when the broker takes every message of the batch and the commit goes
      through, every row of the batch has been published under its own key
      and routing key, and exactly the rows of the batch are marked;
    - when the broker refuses a message of the batch, the table is as it was
      and every row of the batch is still unprocessed. *)
Definition relay_poll_spec (accepts : Message.t → bool) (commit_ok : bool)
    (rows rows' : list Outbox.t) (log log' : list Message.t) (err : option exn) : Prop :=
  let batch := select_unprocessed rows in
  (∀ r, r ∈ batch → r ∈ rows ∧ Outbox.processed r = false) ∧
  (Forall (λ r, accepts (to_message r) = true) batch → commit_ok = true →
     log' = log ++ ((λ r, Message.mk (Some (pretty (Outbox.id r))) (Outbox.routing_key r)
                            (Some (Outbox.payload r))) <$> batch) ∧
     rows' = mark_selected batch rows ∧
     err = None) ∧
  (Exists (λ r, accepts (to_message r) = false) batch →
     rows' = rows ∧
     (∀ r, r ∈ batch → r ∈ rows' ∧ Outbox.processed r = false) ∧
     err = Some AMQPError).

(** Two states of one outbox row: everything but the flag is the same, and
    the flag is not taken back. *)
Definition same_row_but_flag (r r' : Outbox.t) : Prop :=
  Outbox.id r' = Outbox.id r ∧ Outbox.routing_key r' = Outbox.routing_key r ∧
  Outbox.payload r' = Outbox.payload r ∧
  (Outbox.processed r = true → Outbox.processed r' = true).

(** The rows that still wait for their publication, in table order. *)
Definition unprocessed (rows : list Outbox.t) : list Outbox.t :=
  filter (λ r, Outbox.processed r = false) rows.

(** The outbox table after a poll, and the messages the broker took during
    the poll, as functions of the table before it. *)
Definition relay_rows (db_ok : nat → bool) (accepts : Message.t → bool)
    (rows : list Outbox.t) : list Outbox.t :=
  let batch := select_unprocessed rows in
  if db_ok 0%nat && forallb (λ r, accepts (to_message r)) batch && db_ok 1%nat
  then mark_selected batch rows else rows.

Definition relay_sent (db_ok : nat → bool) (accepts : Message.t → bool)
    (rows : list Outbox.t) : list Message.t :=
  if db_ok 0%nat then to_message <$> accepted_prefix accepts (select_unprocessed rows) else [].

(** ** Payment service *)

Module PaymentService.

Record World := mkWorld {
  accounts : gmap Z Z;            (* user_id ↦ balance *)
  inbox : gmap string bool;       (* message_id ↦ processed *)
  outbox : list Outbox.t;
  exchange : list Message.t       (* what the broker received, oldest first *)
}.

Definition set_accounts (f : gmap Z Z → gmap Z Z) (w : World) : World :=
  mkWorld (f (accounts w)) (inbox w) (outbox w) (exchange w).
Definition set_inbox (f : gmap string bool → gmap string bool) (w : World) : World :=
  mkWorld (accounts w) (f (inbox w)) (outbox w) (exchange w).
Definition set_outbox (f : list Outbox.t → list Outbox.t) (w : World) : World :=
  mkWorld (accounts w) (inbox w) (f (outbox w)) (exchange w).
Definition set_exchange (f : list Message.t → list Message.t) (w : World) : World :=
  mkWorld (accounts w) (inbox w) (outbox w) (f (exchange w)).

#[global] Instance world_store : Store World := λ w0 w,
  mkWorld (accounts w0) (inbox w0) (outbox w0) (exchange w).

Inductive handled :=
  | Duplicate
  | Processed (status : string).

(** [message.message_id or str(hash(message.body))]; the hash of the
    interpreter is a parameter. *)
Definition dedup_id (hash : option json → Z) (message : Message.t) : string :=
  match Message.message_id message with
  | Some s => if bool_decide (s = "") then pretty (hash (Message.body message)) else s
  | None => pretty (hash (Message.body message))
  end.

(** [update(Account).where(Account.user_id == user_id,
    Account.balance >= amount).values(balance=Account.balance - amount)];
    the result is the row count. *)
Definition debit (user_id amount : Z) (w : World) : World * Z :=
  match accounts w !! user_id with
  | Some balance =>
      if bool_decide (amount ≤ balance)
      then (set_accounts <[user_id := balance - amount]> w, 1)
      else (w, 0)
  | None => (w, 0)
  end.

Definition select_inbox (msg_id : string) (w : World) : World * option bool :=
  (w, inbox w !! msg_id).

Definition add_inbox (msg_id : string) : tx World unit := λ w,
  match inbox w !! msg_id with
  | Some _ => (w, inl IntegrityError)
  | None => (set_inbox <[msg_id := true]> w, inr tt)
  end.

Definition add_outbox (routing_key : string) (payload : json) : tx World unit :=
  modify (set_outbox (λ rows,
    rows ++ [Outbox.mk (next_outbox_id rows) routing_key payload false])).

Definition response_payload (order_id : jvalue) (status : string) (user_id : jvalue) : json :=
  <["order_id" := order_id]> (<["status" := JStr status]> (<["user_id" := user_id]> ∅)).

(** The body of the [async for message in queue_iter] loop of
    [rabbitmq_consumer].  Statements: 0 the inbox select, 1 the update,
    2 the flush of the two inserts and the commit. *)
Definition rabbitmq_consumer (hash : option json → Z) (db_ok : nat → bool)
    (message : Message.t) : tx World handled :=
  let msg_id := dedup_id hash message in
  match Message.body message with
  | None => raise JSONDecodeError
  | Some data =>
      session_begin (db_ok 2%nat) (
        exists_ ← execute (db_ok 0%nat) (select_inbox msg_id);
        match exists_ with
        | Some _ => mret Duplicate
        | None =>
            user_id ← getitem data "user_id";
            amount ← getitem data "amount";
            order_id ← getitem data "order_id";
            uid ← as_number user_id;
            amt ← as_number amount;
            rowcount ← execute (db_ok 1%nat) (debit uid amt);
            let success := bool_decide (0 < rowcount) in
            let status := if success then "FINISHED" else "CANCELLED" in
            add_inbox msg_id;;
            add_outbox "payment.processed" (response_payload order_id status user_id);;
            mret (Processed status)
        end)
  end.

(** [exchange.publish(message, routing_key=...)] *)
Definition exchange_publish (accepts : Message.t → bool) (m : Message.t) : tx World unit := λ w,
  if accepts m then (set_exchange (λ log, log ++ [m]) w, inr tt) else (w, inl AMQPError).

(** One poll of [outbox_processor]: the body of its [while True] loop.
    Statements: 0 the select, 1 the flush of the updates and the commit. *)
Definition outbox_processor (db_ok : nat → bool) (accepts : Message.t → bool)
    : tx World (option exn) :=
  try_except (
    session_begin (db_ok 1%nat) (
      messages ← execute (db_ok 0%nat) (λ w, (w, select_unprocessed (outbox w)));
      for_each (λ msg,
        exchange_publish accepts (to_message msg);;
        modify (set_outbox (mark_processed (Outbox.id msg)))) messages)).

Inductive response :=
  | StatusCreated
  | StatusOk
  | Balance (balance : Z)
  | NotFound.

(** [session.add(Account(user_id=..., balance=0.0))], flushed by the commit:
    the primary key refuses a second row for the user. *)
Definition add_account (user_id : Z) : tx World unit := λ w,
  match accounts w !! user_id with
  | Some _ => (w, inl IntegrityError)
  | None => (set_accounts <[user_id := 0]> w, inr tt)
  end.

(** [POST /accounts].  Statements: 0 the insert (flushed by the commit),
    1 the commit. *)
Definition create_account (db_ok : nat → bool) (user_id : Z) : tx World response :=
  session_begin (db_ok 1%nat) (
    execute (db_ok 0%nat) (λ w, (w, tt));;
    add_account user_id);;
  mret StatusCreated.

(** [POST /accounts/topup] *)
Definition topup (db_ok : nat → bool) (user_id amount : Z) : tx World response :=
  session_begin (db_ok 1%nat) (
    execute (db_ok 0%nat) (λ w,
      match accounts w !! user_id with
      | Some balance => (set_accounts <[user_id := balance + amount]> w, tt)
      | None => (w, tt)
      end));;
  mret StatusOk.

(** [GET /accounts/{user_id}] *)
Definition get_balance (user_id : Z) (w : World) : response :=
  match accounts w !! user_id with
  | Some balance => Balance balance
  | None => NotFound
  end.

(** *** Vocabulary of the statements about the consumer *)

#[global] Instance handled_eq_dec : EqDecision handled.
Proof. solve_decision. Defined.

(** The body of an "order.created" event for user [u] and amount [a]. *)
Definition well_formed (data : json) (u a : Z) (oid : jvalue) : Prop :=
  data !! "user_id" = Some (JNum u) ∧ data !! "amount" = Some (JNum a) ∧
  data !! "order_id" = Some oid.

Definition is_debit_attempt (u a : Z) (m : Message.t) : Prop :=
  ∃ data oid, Message.body m = Some data ∧ well_formed data u a oid.

(** The outbox row that records the outcome of a debit. *)
Definition outcome_row (rows : list Outbox.t) (order_id : jvalue) (status : string)
    (user_id : jvalue) : Outbox.t :=
  Outbox.mk (next_outbox_id rows) "payment.processed"
    (response_payload order_id status user_id) false.

(** The world after a message that was not seen before has been processed:
    the accounts are those the update left in [w1], the inbox has the message
    and the outbox the outcome. *)
Definition settled (msg_id : string) (order_id user_id : jvalue) (w1 : World)
    (rowcount : Z) (w : World) : World :=
  mkWorld (accounts w1) (<[msg_id := true]> (inbox w))
    (outbox w ++ [outcome_row (outbox w) order_id
                    (if bool_decide (0 < rowcount) then "FINISHED" else "CANCELLED") user_id])
    (exchange w).

(** A delivery is a message with the state of the store while it is handled;
    [consume] handles deliveries one after the other, as the queue hands them
    over, and collects what each one came to. *)
Definition delivery : Type := (nat → bool) * Message.t.

Fixpoint consume (hash : option json → Z) (ds : list delivery) (w : World)
    : World * list (exn + handled) :=
  match ds with
  | [] => (w, [])
  | d :: ds' =>
      let '(w1, r) := rabbitmq_consumer hash d.1 d.2 w in
      let '(w2, rs) := consume hash ds' w1 in
      (w2, r :: rs)
  end.

(** The race resolution in the words of the specification: of the debit
    attempts against one account, taken in arrival order, an attempt succeeds
    when the balance left by the earlier ones affords it, and the others
    change nothing.  The result is the list of successes and the final
    balance. *)
Fixpoint affordable_in_arrival_order (balance : Z) (amounts : list Z) : list bool * Z :=
  match amounts with
  | [] => ([], balance)
  | a :: rest =>
      if bool_decide (a ≤ balance)
      then let '(oks, b) := affordable_in_arrival_order (balance - a) rest in (true :: oks, b)
      else let '(oks, b) := affordable_in_arrival_order balance rest in (false :: oks, b)
  end.

Definition settles (ok : bool) : exn + handled :=
  inr (Processed (if ok then "FINISHED" else "CANCELLED")).

Definition count_status (status : string) (rs : list (exn + handled)) : nat :=
  length (filter (λ r, r = inr (Processed status)) rs).

(** A message is absorbed in [w1] when handling it changes nothing, under
    any faults, in any world whose inbox has at least the entries of [w1]. *)
Definition absorbed (hash : option json → Z) (m : Message.t) (w1 : World) : Prop :=
  ∀ db_ok w2, (∀ k p, inbox w1 !! k = Some p → inbox w2 !! k = Some p) →
    (rabbitmq_consumer hash db_ok m w2).1 = w2.

(** Whether a delivery was processed (and not skipped or rejected). *)
Definition is_processed (r : exn + handled) : bool :=
  match r with
  | inr (Processed _) => true
  | _ => false
  end.

(** *** The scenario of [test_script.py]: one account with 100, five orders
    of 100 each. *)

Definition order_created (key : string) (order_id user_id amount : Z) : Message.t :=
  Message.mk (Some key) "order.created"
    (Some (<["order_id" := JNum order_id]>
             (<["user_id" := JNum user_id]> (<["amount" := JNum amount]> ∅)))).

Definition race_world : World := mkWorld {[ 7 := 100 ]} ∅ [] [].

Definition race_messages : list Message.t :=
  [order_created "1" 11 7 100; order_created "2" 12 7 100; order_created "3" 13 7 100;
   order_created "4" 14 7 100; order_created "5" 15 7 100].

Definition no_hash : option json → Z := λ _, 0.

(** An outbox with one published and two unpublished outcomes. *)
Definition relay_world : World :=
  mkWorld ∅ ∅
    [Outbox.mk 1 "payment.processed" (response_payload (JNum 11) "FINISHED" (JNum 7)) true;
     Outbox.mk 2 "payment.processed" (response_payload (JNum 12) "CANCELLED" (JNum 7)) false;
     Outbox.mk 3 "payment.processed" (response_payload (JNum 13) "CANCELLED" (JNum 7)) false]
    [].

End PaymentService.

(** ** Order service *)

Module Order.
Record t := mk {
  id : Z;
  user_id : Z;
  description : string;
  amount : Z;
  status : string
}.
Definition set_status (s : string) (r : t) : t :=
  mk (id r) (user_id r) (description r) (amount r) s.
End Order.

Module OrderService.

(** A socket is known by its identity. *)
Abbreviation WebSocket := nat.

Record World := mkWorld {
  orders : list Order.t;
  outbox : list Outbox.t;
  exchange : list Message.t;                     (* what the broker received *)
  active_connections : gmap Z (list WebSocket);  (* manager.active_connections *)
  frames : list (WebSocket * json)               (* text frames the sockets took *)
}.

Definition set_orders (f : list Order.t → list Order.t) (w : World) : World :=
  mkWorld (f (orders w)) (outbox w) (exchange w) (active_connections w) (frames w).
Definition set_outbox (f : list Outbox.t → list Outbox.t) (w : World) : World :=
  mkWorld (orders w) (f (outbox w)) (exchange w) (active_connections w) (frames w).
Definition set_exchange (f : list Message.t → list Message.t) (w : World) : World :=
  mkWorld (orders w) (outbox w) (f (exchange w)) (active_connections w) (frames w).
Definition set_active_connections
    (f : gmap Z (list WebSocket) → gmap Z (list WebSocket)) (w : World) : World :=
  mkWorld (orders w) (outbox w) (exchange w) (f (active_connections w)) (frames w).
Definition set_frames (f : list (WebSocket * json) → list (WebSocket * json))
    (w : World) : World :=
  mkWorld (orders w) (outbox w) (exchange w) (active_connections w) (f (frames w)).

#[global] Instance world_store : Store World := λ w0 w,
  mkWorld (orders w0) (outbox w0) (exchange w) (active_connections w) (frames w).

(** *** ConnectionManager *)

(** [connect]: the list of the user is created when missing, the socket is
    appended. *)
Definition connect (websocket : WebSocket) (user_id : Z) : tx World unit :=
  modify (set_active_connections (λ conns,
    <[user_id := default [] (conns !! user_id) ++ [websocket]]> conns)).

(** [list.remove]: the first occurrence goes. *)
Fixpoint list_remove_first (x : WebSocket) (l : list WebSocket) : list WebSocket :=
  match l with
  | [] => []
  | y :: l' => if bool_decide (y = x) then l' else y :: list_remove_first x l'
  end.

Definition disconnect (websocket : WebSocket) (user_id : Z) : tx World unit :=
  modify (set_active_connections (λ conns,
    match conns !! user_id with
    | Some l => <[user_id := list_remove_first websocket l]> conns
    | None => conns
    end)).

(** [connection.send_text(message)] *)
Definition send_text (ws_ok : WebSocket → bool) (message : json)
    (connection : WebSocket) : tx World unit := λ w,
  if ws_ok connection
  then (set_frames (λ log, log ++ [(connection, message)]) w, inr tt)
  else (w, inl WebSocketError).

Definition send_to_user (ws_ok : WebSocket → bool) (message : json) (user_id : Z)
    : tx World unit := λ w,
  match active_connections w !! user_id with
  | Some connections => for_each (send_text ws_ok message) connections w
  | None => (w, inr tt)
  end.

(** *** Outbox relay *)

Definition exchange_publish (accepts : Message.t → bool) (m : Message.t) : tx World unit := λ w,
  if accepts m then (set_exchange (λ log, log ++ [m]) w, inr tt) else (w, inl AMQPError).

(** One poll of [outbox_processor]: the body of its [while True] loop.
    Statements: 0 the select, 1 the flush of the updates and the commit. *)
Definition outbox_processor (db_ok : nat → bool) (accepts : Message.t → bool)
    : tx World (option exn) :=
  try_except (
    session_begin (db_ok 1%nat) (
      messages ← execute (db_ok 0%nat) (λ w, (w, select_unprocessed (outbox w)));
      for_each (λ msg,
        exchange_publish accepts (to_message msg);;
        modify (set_outbox (mark_processed (Outbox.id msg)))) messages)).

(** *** Payment results *)

(** [update(Order).where(Order.id == order_id).values(status=status)] *)
Definition update_status (order_id : Z) (status : string) (w : World) : World * unit :=
  (set_orders (fmap (λ r,
     if bool_decide (Order.id r = order_id) then Order.set_status status r else r)) w, tt).

(** The body of the [async for message in queue_iter] loop of
    [payment_result_consumer].  Statements: 0 the update, 1 the commit.
    A [user_id] that is not a number is no key of the manager. *)
Definition payment_result_consumer (db_ok : nat → bool) (ws_ok : WebSocket → bool)
    (message : Message.t) : tx World unit :=
  match Message.body message with
  | None => raise JSONDecodeError
  | Some data =>
      order_id ← getitem data "order_id";
      status ← getitem data "status";
      user_id ← getitem data "user_id";
      session_begin (db_ok 1%nat) (
        oid ← as_number order_id;
        st ← as_text status;
        execute (db_ok 0%nat) (update_status oid st));;
      match user_id with
      | JNum uid => send_to_user ws_ok data uid
      | JStr _ => mret tt
      end
  end.

(** *** API *)

Record OrderReq := mkOrderReq {
  req_user_id : Z;
  req_description : string;
  req_amount : Z
}.

(** The answer [{"id": order.id, "status": ...}]. *)
Record OrderResp := mkOrderResp {
  resp_id : Z;
  resp_status : string
}.

Definition next_order_id (rows : list Order.t) : Z :=
  1 + foldr Z.max 0 (Order.id <$> rows).

(** [session.add(order); await session.flush()]: the insert, which gives the
    order its key. *)
Definition add_order (user_id : Z) (description : string) (amount : Z)
    (status : string) (w : World) : World * Z :=
  let key := next_order_id (orders w) in
  (set_orders (λ rows, rows ++ [Order.mk key user_id description amount status]) w, key).

Definition add_outbox (routing_key : string) (payload : json) (w : World) : World * unit :=
  (set_outbox (λ rows,
     rows ++ [Outbox.mk (next_outbox_id rows) routing_key payload false]) w, tt).

Definition order_created_payload (order_id user_id amount : Z) : json :=
  <["order_id" := JNum order_id]>
    (<["user_id" := JNum user_id]> (<["amount" := JNum amount]> ∅)).

(** [POST /orders].  Statements: 0 the flush that inserts the order, 1 the
    insert of the outbox row (flushed by the commit), 2 the commit. *)
Definition create_order (db_ok : nat → bool) (req : OrderReq) : tx World OrderResp :=
  session_begin (db_ok 2%nat) (
    order_id ← execute (db_ok 0%nat)
      (add_order (req_user_id req) (req_description req) (req_amount req) "NEW");
    let payload := order_created_payload order_id (req_user_id req) (req_amount req) in
    execute (db_ok 1%nat) (add_outbox "order.created" payload);;
    mret (mkOrderResp order_id "NEW")).

(** [Order.id.desc()]: the order with the larger key comes first. *)
Definition newer_first (a b : Order.t) : Prop := Order.id b ≤ Order.id a.

#[global] Instance newer_first_dec a b : Decision (newer_first a b).
Proof. unfold newer_first. apply _. Defined.

(** [GET /orders]: [select(Order).order_by(Order.id.desc())], one statement
    outside any transaction block. *)
Definition list_orders (db_ok : nat → bool) : tx World (list Order.t) :=
  execute (db_ok 0%nat) (λ w, (w, merge_sort newer_first (orders w))).

(** *** Vocabulary of the statements about the hub and the consumer *)

Definition connections_of (user_id : Z) (w : World) : list WebSocket :=
  default [] (active_connections w !! user_id).

(** The sockets of a list that are reached before a send fails. *)
Fixpoint sent_before_failure (ws_ok : WebSocket → bool) (connections : list WebSocket)
    : list WebSocket :=
  match connections with
  | [] => []
  | c :: rest => if ws_ok c then c :: sent_before_failure ws_ok rest else []
  end.

(** A delivery of a payment result: the message with the state of the store
    and of the sockets while it is handled. *)
Definition result_delivery : Type := (nat → bool) * (WebSocket → bool) * Message.t.

Definition consume_results (ds : list result_delivery) (w : World) : World :=
  foldl (λ w d, (payment_result_consumer d.1.1 d.1.2 d.2 w).1) w ds.

(** Whenever the message is a result for order [order_id], its status is
    [status]. *)
Definition carries (order_id : Z) (status : string) (m : Message.t) : Prop :=
  ∀ data s, Message.body m = Some data →
    data !! "order_id" = Some (JNum order_id) → data !! "status" = Some (JStr s) →
    s = status.

(** *** Sample worlds *)

Definition payment_processed (order_id : Z) (status : string) (user_id : Z) : json :=
  <["order_id" := JNum order_id]>
    (<["status" := JStr status]> (<["user_id" := JNum user_id]> ∅)).

Definition empty_world : World := mkWorld [] [] [] ∅ [].

(** User 7 has two sockets, the first of which is closed. *)
Definition hub_two_sockets : World := mkWorld [] [] [] {[ 7 := [1%nat; 2%nat] ]} [].
Definition first_socket_closed : WebSocket → bool := λ c, negb (c =? 1)%nat.

(** Order 1 of user 7 is paid; a result that cancels it arrives later. *)
Definition settled_order : World :=
  mkWorld [Order.mk 1 7 "book" 100 "FINISHED"] [] [] ∅ [].

Definition late_cancel : Message.t :=
  Message.mk (Some "2") "payment.processed"
    (Some (payment_processed 1 "CANCELLED" 7)).

Definition repeated_finish : Message.t :=
  Message.mk (Some "1") "payment.processed"
    (Some (payment_processed 1 "FINISHED" 7)).

(** An outbox with one published and two unpublished orders. *)
Definition relay_world : World :=
  mkWorld []
    [Outbox.mk 1 "order.created" (order_created_payload 1 7 100) true;
     Outbox.mk 2 "order.created" (order_created_payload 2 7 100) false;
     Outbox.mk 3 "order.created" (order_created_payload 3 7 100) false]
    [] ∅ [].

End OrderService.

(** *** Vocabulary of the statements about the orders *)

(** Two states of one order: everything but the status is the same. *)
Definition same_order_but_status (o o' : Order.t) : Prop :=
  Order.id o' = Order.id o ∧ Order.user_id o' = Order.user_id o ∧
  Order.description o' = Order.description o ∧ Order.amount o' = Order.amount o.

(** The outbox row [r] announces the order [o]. *)
Definition announces (o : Order.t) (r : Outbox.t) : Prop :=
  Outbox.routing_key r = "order.created" ∧
  Outbox.payload r =
    OrderService.order_created_payload (Order.id o) (Order.user_id o) (Order.amount o).

Definition every_order_announced (w : OrderService.World) : Prop :=
  Forall2 announces (OrderService.orders w) (OrderService.outbox w).

(** The update a payment result asks for, when the status consumer gets as
    far as the update: the three keys are there, the order key is a number
    and the status a text. *)
Definition result_for (m : Message.t) : option (Z * string) :=
  match Message.body m with
  | Some data =>
      match data !! "order_id", data !! "status", data !! "user_id" with
      | Some (JNum k), Some (JStr st), Some _ => Some (k, st)
      | _, _, _ => None
      end
  | None => None
  end.

(** The status of the last result for the order in a sequence of messages. *)
Fixpoint last_status (order_id : Z) (ms : list Message.t) : option string :=
  match ms with
  | [] => None
  | m :: ms' =>
      match last_status order_id ms' with
      | Some st => Some st
      | None =>
          match result_for m with
          | Some (k, st) => if bool_decide (k = order_id) then Some st else None
          | None => None
          end
      end
  end.

(** ** The two services on the exchange *)

Module Shop.

(** [queue.bind(exchange, routing_key=key)] on the topic exchange, with a key
    without wildcards: the queue gets the messages published with exactly
    that routing key, in the order of their publication. *)
Definition bound_to (key : string) (log : list Message.t) : list Message.t :=
  filter (λ m, Message.routing_key m = key) log.

(** One order from the request to its settlement, every task taking one
    turn with the store and the broker up: the order is created, the relay
    of the order service polls, the payment consumer handles what reached
    the queue "payment_tasks", the relay of the payment service polls, and
    the status consumer handles what reached the queue "order_updates". *)
Definition place_order (hash : option json → Z) (ws_ok : OrderService.WebSocket → bool)
    (req : OrderService.OrderReq) (wo : OrderService.World) (wp : PaymentService.World)
    : OrderService.World * PaymentService.World :=
  let wo1 := (OrderService.create_order all_ok req wo).1 in
  let wo2 := (OrderService.outbox_processor all_ok (λ _, true) wo1).1 in
  let tasks :=
    bound_to "order.created"
      (drop (length (OrderService.exchange wo)) (OrderService.exchange wo2)) in
  let wp1 := (PaymentService.consume hash (pair all_ok <$> tasks) wp).1 in
  let wp2 := (PaymentService.outbox_processor all_ok (λ _, true) wp1).1 in
  let updates :=
    bound_to "payment.processed"
      (drop (length (PaymentService.exchange wp)) (PaymentService.exchange wp2)) in
  let wo3 := OrderService.consume_results ((λ m, (all_ok, ws_ok, m)) <$> updates) wo2 in
  (wo3, wp2).

(** The two stores with what the two relays published. *)
Definition State : Type := OrderService.World * PaymentService.World.

Definition initial : State :=
  (OrderService.empty_world, PaymentService.mkWorld ∅ ∅ [] []).

(** Everything that was published on the exchange "shop_events". *)
Definition published (s : State) : list Message.t :=
  OrderService.exchange s.1 ++ PaymentService.exchange s.2.

(** What can happen in the shop: a request to either API, a poll of either
    relay, and the delivery, for the first time or again, of the [n]-th
    message that reached the queue of either consumer; each with the state
    of the store, the broker and the sockets at that moment. *)
Inductive action :=
  | CreateOrder (db_ok : nat → bool) (req : OrderService.OrderReq)
  | ListOrders (db_ok : nat → bool)
  | Connect (websocket : OrderService.WebSocket) (user_id : Z)
  | Disconnect (websocket : OrderService.WebSocket) (user_id : Z)
  | OrderRelay (db_ok : nat → bool) (accepts : Message.t → bool)
  | StatusDelivery (db_ok : nat → bool) (ws_ok : OrderService.WebSocket → bool) (n : nat)
  | CreateAccount (db_ok : nat → bool) (user_id : Z)
  | Topup (db_ok : nat → bool) (user_id amount : Z)
  | PaymentRelay (db_ok : nat → bool) (accepts : Message.t → bool)
  | PaymentDelivery (db_ok : nat → bool) (n : nat).

Definition step (hash : option json → Z) (a : action) (s : State) : State :=
  match a with
  | CreateOrder db_ok req => ((OrderService.create_order db_ok req s.1).1, s.2)
  | ListOrders db_ok => ((OrderService.list_orders db_ok s.1).1, s.2)
  | Connect websocket user_id => ((OrderService.connect websocket user_id s.1).1, s.2)
  | Disconnect websocket user_id => ((OrderService.disconnect websocket user_id s.1).1, s.2)
  | OrderRelay db_ok accepts => ((OrderService.outbox_processor db_ok accepts s.1).1, s.2)
  | StatusDelivery db_ok ws_ok n =>
      match bound_to "payment.processed" (published s) !! n with
      | Some m => ((OrderService.payment_result_consumer db_ok ws_ok m s.1).1, s.2)
      | None => s
      end
  | CreateAccount db_ok user_id => (s.1, (PaymentService.create_account db_ok user_id s.2).1)
  | Topup db_ok user_id amount => (s.1, (PaymentService.topup db_ok user_id amount s.2).1)
  | PaymentRelay db_ok accepts => (s.1, (PaymentService.outbox_processor db_ok accepts s.2).1)
  | PaymentDelivery db_ok n =>
      match bound_to "order.created" (published s) !! n with
      | Some m => (s.1, (PaymentService.rabbitmq_consumer hash db_ok m s.2).1)
      | None => s
      end
  end.

Definition run (hash : option json → Z) (acts : list action) (s : State) : State :=
  foldl (λ s a, step hash a s) s acts.

Definition settled_status (st : string) : Prop := st = "FINISHED" ∨ st = "CANCELLED".

(** The outbox row [r] of the payment service is the one result of an order:
    the order at some position of the orders, whose announcement, at the same
    position of the outbox of the order service, is in the inbox. *)
Definition is_result (orders : list Order.t) (obox : list Outbox.t)
    (inbox : gmap string bool) (r : Outbox.t) : Prop :=
  ∃ i o r0 st,
    orders !! i = Some o ∧ obox !! i = Some r0 ∧
    is_Some (inbox !! pretty (Outbox.id r0)) ∧
    Outbox.routing_key r = "payment.processed" ∧
    Outbox.payload r =
      PaymentService.response_payload (JNum (Order.id o)) st (JNum (Order.user_id o)) ∧
    settled_status st.

Record invariant (s : State) : Prop := {
  inv_keys : NoDup (Order.id <$> OrderService.orders s.1);
  inv_announced : every_order_announced s.1;
  inv_order_published :
    ∀ m, m ∈ OrderService.exchange s.1 →
      ∃ r, r ∈ OrderService.outbox s.1 ∧ to_message r = m;
  inv_payment_published :
    ∀ m, m ∈ PaymentService.exchange s.2 →
      ∃ r, r ∈ PaymentService.outbox s.2 ∧ to_message r = m;
  inv_results :
    ∀ r, r ∈ PaymentService.outbox s.2 →
      is_result (OrderService.orders s.1) (OrderService.outbox s.1)
        (PaymentService.inbox s.2) r;
  inv_settled :
    ∀ o, o ∈ OrderService.orders s.1 →
      Order.status o = "NEW" ∨
      ∃ r u, r ∈ PaymentService.outbox s.2 ∧
        Outbox.payload r =
          PaymentService.response_payload (JNum (Order.id o)) (Order.status o) u;
  inv_one_result :
    ∀ r r' k st st' u u',
      r ∈ PaymentService.outbox s.2 → r' ∈ PaymentService.outbox s.2 →
      Outbox.payload r = PaymentService.response_payload (JNum k) st u →
      Outbox.payload r' = PaymentService.response_payload (JNum k) st' u' →
      st = st'
}.

(** A day of the shop: user 7 opens an account and tops it up by 100, orders
    a book for 40, and every task takes one turn. *)
Definition book_order_settles : list action :=
  [CreateAccount all_ok 7; Topup all_ok 7 100;
   CreateOrder all_ok (OrderService.mkOrderReq 7 "book" 40);
   OrderRelay all_ok (λ _, true); PaymentDelivery all_ok 0;
   PaymentRelay all_ok (λ _, true); StatusDelivery all_ok (λ _, true) 0].

(** What follows: the broker delivers the announcement and the result of the
    book again, the relay of the payment service publishes while the broker
    refuses and then again, the user orders a piano for 100 that the 60 left
    do not pay, and the two results are delivered last first. *)
Definition redeliveries_and_a_second_order : list action :=
  [PaymentDelivery all_ok 0; StatusDelivery all_ok (λ _, true) 0;
   CreateOrder all_ok (OrderService.mkOrderReq 7 "piano" 100);
   OrderRelay all_ok (λ _, true); PaymentDelivery all_ok 1; PaymentDelivery all_ok 0;
   PaymentRelay all_ok (λ _, false); PaymentRelay all_ok (λ _, true);
   StatusDelivery all_ok (λ _, true) 1; StatusDelivery all_ok (λ _, true) 0;
   StatusDelivery all_ok (λ _, true) 1].

End Shop.

(** * Properties *)

(** ** The payment debit consumer *)

Module PaymentProofs.
Import PaymentService.

Ltac tx_unfold :=
  unfold rabbitmq_consumer, topup, session_begin, execute, getitem, as_number, as_text,
    add_inbox, add_outbox, select_inbox, modify, raise, try_except,
    rollback, world_store, mbind, tx_bind, mret, tx_ret in *.

Lemma world_eta w : mkWorld (accounts w) (inbox w) (outbox w) (exchange w) = w.
Proof. by destruct w. Qed.

(** The update touches the accounts only. *)
Lemma debit_tables u a w :
  inbox (debit u a w).1 = inbox w ∧ outbox (debit u a w).1 = outbox w ∧
  exchange (debit u a w).1 = exchange w.
Proof. unfold debit. destruct (accounts w !! u); [case_bool_decide|]; done. Qed.

Lemma debit_known u a b w :
  accounts w !! u = Some b →
  debit u a w = if bool_decide (a ≤ b) then (set_accounts <[u := b - a]> w, 1) else (w, 0).
Proof. intros Hacc. unfold debit. by rewrite Hacc. Qed.

(** A well-formed message that is not in the inbox, with the store up, is
    processed: one update, one inbox row, one outbox row. *)
Lemma rabbitmq_consumer_fresh hash db_ok m w data u a oid :
  Message.body m = Some data →
  well_formed data u a oid →
  inbox w !! dedup_id hash m = None →
  db_ok 0%nat = true → db_ok 1%nat = true → db_ok 2%nat = true →
  rabbitmq_consumer hash db_ok m w =
    (settled (dedup_id hash m) oid (JNum u) (debit u a w).1 (debit u a w).2 w,
     inr (Processed (if bool_decide (0 < (debit u a w).2) then "FINISHED" else "CANCELLED"))).
Proof.
  intros Hb (Hu & Ha & Ho) Hi H0 H1 H2. tx_unfold.
  rewrite Hb, H0, H1, H2, Hi, Hu, Ha, Ho. simpl.
  destruct (debit_tables u a w) as (Ei & Eo & Ee).
  destruct (debit u a w) as [w1 rc] eqn:E. simpl in *.
  rewrite Ei, Hi. simpl. unfold settled, outcome_row, set_outbox, set_inbox; simpl.
  rewrite Ei, Eo, Ee. done.
Qed.

(** In every other case the world is as it was and nothing was processed. *)
Lemma rabbitmq_consumer_cases hash db_ok m w :
  (∃ data u a oid,
      Message.body m = Some data ∧ well_formed data u a oid ∧
      inbox w !! dedup_id hash m = None ∧
      db_ok 0%nat = true ∧ db_ok 1%nat = true ∧ db_ok 2%nat = true)
  ∨ ((rabbitmq_consumer hash db_ok m w).1 = w ∧
     ∀ st, (rabbitmq_consumer hash db_ok m w).2 ≠ inr (Processed st)).
Proof.
  destruct (Message.body m) as [data|] eqn:Hb; cycle 1.
  { right. unfold rabbitmq_consumer. rewrite Hb. done. }
  destruct (db_ok 0%nat) eqn:H0; cycle 1.
  { right. tx_unfold. rewrite Hb, H0. simpl. rewrite world_eta. done. }
  destruct (inbox w !! dedup_id hash m) as [p|] eqn:Hi.
  { right. tx_unfold. rewrite Hb, H0, Hi. simpl.
    destruct (db_ok 2%nat); simpl; rewrite ?world_eta; done. }
  destruct (data !! "user_id") as [uv|] eqn:Hu; cycle 1.
  { right. tx_unfold. rewrite Hb, H0, Hi, Hu. simpl. rewrite world_eta. done. }
  destruct (data !! "amount") as [av|] eqn:Ha; cycle 1.
  { right. tx_unfold. rewrite Hb, H0, Hi, Hu, Ha. simpl. rewrite world_eta. done. }
  destruct (data !! "order_id") as [oid|] eqn:Ho; cycle 1.
  { right. tx_unfold. rewrite Hb, H0, Hi, Hu, Ha, Ho. simpl. rewrite world_eta. done. }
  destruct uv as [u|s]; cycle 1.
  { right. tx_unfold. rewrite Hb, H0, Hi, Hu, Ha, Ho. simpl. rewrite world_eta. done. }
  destruct av as [a|s]; cycle 1.
  { right. tx_unfold. rewrite Hb, H0, Hi, Hu, Ha, Ho. simpl. rewrite world_eta. done. }
  destruct (db_ok 1%nat) eqn:H1; cycle 1.
  { right. tx_unfold. rewrite Hb, H0, Hi, Hu, Ha, Ho, H1. simpl. rewrite world_eta. done. }
  destruct (db_ok 2%nat) eqn:H2; cycle 1.
  { right. tx_unfold. rewrite Hb, H0, Hi, Hu, Ha, Ho, H1, H2. simpl.
    destruct (debit_tables u a w) as (Ei & Eo & Ee).
    destruct (debit u a w) as [w1 rc]. simpl in *. rewrite Ei, Hi. simpl.
    rewrite Ee, world_eta. done. }
  left. exists data, u, a, oid. done.
Qed.

(** The spec's single underfunded request: balance 100, debit of 200. *)
Example underfunded_request :
  rabbitmq_consumer no_hash all_ok (order_created "9" 21 7 200) race_world =
    (mkWorld {[ 7 := 100 ]} {[ "9" := true ]}
       [Outbox.mk 1 "payment.processed" (response_payload (JNum 21) "CANCELLED" (JNum 7)) false]
       [],
     inr (Processed "CANCELLED")).
Proof. vm_compute. reflexivity. Qed.

(** The stress test: five orders of 100 against a balance of 100. *)
Example race_five_orders :
  (consume no_hash (pair all_ok <$> race_messages) race_world).2 =
    [inr (Processed "FINISHED"); inr (Processed "CANCELLED"); inr (Processed "CANCELLED");
     inr (Processed "CANCELLED"); inr (Processed "CANCELLED")].
Proof. vm_compute. reflexivity. Qed.

(** C1: a well-formed order-creation event for user [u] and amount [a] that
    is not a duplicate, handled with the store up, is settled by ONE
    conditional update: when the account of [u] exists with a balance of at
    least [a], one row is affected, the balance goes down by [a] and the
    outcome recorded is FINISHED; when the balance is short or the account
    does not exist, no row is affected, the accounts are as they were and the
    outcome recorded is CANCELLED. *)
Theorem debit_is_single_conditional_update hash db_ok message w data u a oid :
  Message.body message = Some data →
  well_formed data u a oid →
  inbox w !! dedup_id hash message = None →
  db_ok 0%nat = true → db_ok 1%nat = true → db_ok 2%nat = true →
  let w' := (rabbitmq_consumer hash db_ok message w).1 in
  let r := (rabbitmq_consumer hash db_ok message w).2 in
  (∀ balance, accounts w !! u = Some balance → a ≤ balance →
     (debit u a w).2 = 1 ∧
     accounts w' = <[u := balance - a]> (accounts w) ∧
     r = inr (Processed "FINISHED") ∧
     outbox w' = outbox w ++ [outcome_row (outbox w) oid "FINISHED" (JNum u)]) ∧
  ((∀ balance, accounts w !! u = Some balance → balance < a) →
     (debit u a w).2 = 0 ∧
     accounts w' = accounts w ∧
     r = inr (Processed "CANCELLED") ∧
     outbox w' = outbox w ++ [outcome_row (outbox w) oid "CANCELLED" (JNum u)]).
Proof.
  intros Hb Hwf Hi H0 H1 H2 w' r. subst w' r.
  rewrite (rabbitmq_consumer_fresh hash db_ok message w data u a oid) by done.
  unfold settled, debit. simpl. split.
  - intros b Hacc Hle. rewrite Hacc, bool_decide_eq_true_2 by done. done.
  - intros Hlt. destruct (accounts w !! u) as [b|] eqn:Hacc; [|done].
    specialize (Hlt b eq_refl). rewrite bool_decide_eq_false_2 by lia. done.
Qed.

Lemma debit_is_single_conditional_update_witness :
  let run := rabbitmq_consumer no_hash all_ok (order_created "1" 11 7 100) race_world in
  accounts run.1 = <[7 := 100 - 100]> (accounts race_world) ∧
  run.2 = inr (Processed "FINISHED").
Proof.
  destruct (debit_is_single_conditional_update no_hash all_ok (order_created "1" 11 7 100)
              race_world
              (<["order_id" := JNum 11]> (<["user_id" := JNum 7]> (<["amount" := JNum 100]> ∅)))
              7 100 (JNum 11)) as [Hfin _].
  - reflexivity.
  - repeat split; reflexivity.
  - reflexivity.
  - reflexivity.
  - reflexivity.
  - reflexivity.
  - destruct (Hfin 100) as (_ & Hacc & Hr & _); [reflexivity|lia|]. split; assumption.
Defined.

(** C7: no debit makes a balance negative.  A balance that is not negative
    is not negative after the conditional update, whatever user and amount
    the update names, and not after the handling of any message, whether the
    debit went through, affected no row or was rolled back. *)
Theorem debit_keeps_balance_nonnegative hash db_ok message u a w user_id balance :
  accounts w !! user_id = Some balance → 0 ≤ balance →
  (∃ balance', accounts (debit u a w).1 !! user_id = Some balance' ∧ 0 ≤ balance') ∧
  (∃ balance', accounts (rabbitmq_consumer hash db_ok message w).1 !! user_id = Some balance'
               ∧ 0 ≤ balance').
Proof.
  intros Hacc Hpos.
  assert (∀ u a, ∃ balance',
            accounts (debit u a w).1 !! user_id = Some balance' ∧ 0 ≤ balance') as Hdebit.
  { clear u a. intros u a. unfold debit.
    destruct (accounts w !! u) as [b|] eqn:Hbu; [|eauto].
    case_bool_decide; [|eauto]. simpl.
    destruct (decide (u = user_id)) as [->|Hne].
    - rewrite lookup_insert_eq. eexists; split; [done|]. simplify_eq. lia.
    - rewrite lookup_insert_ne by done. eauto. }
  split; [apply Hdebit|].
  destruct (rabbitmq_consumer_cases hash db_ok message w)
    as [(data & u' & a' & oid & Hb & Hwf & Hi & H0 & H1 & H2)|[-> _]]; [|eauto].
  rewrite (rabbitmq_consumer_fresh hash db_ok message w data u' a' oid) by done.
  apply Hdebit.
Qed.

Lemma debit_keeps_balance_nonnegative_witness :
  (∃ balance', accounts (debit 7 100 race_world).1 !! 7 = Some balance' ∧ 0 ≤ balance') ∧
  (∃ balance',
     accounts (rabbitmq_consumer no_hash all_ok (order_created "1" 11 7 100) race_world).1 !! 7
       = Some balance' ∧ 0 ≤ balance').
Proof.
  apply (debit_keeps_balance_nonnegative no_hash all_ok (order_created "1" 11 7 100)
           7 100 race_world 7 100).
  - reflexivity.
  - lia.
Defined.

(** C10: a top-up for a user without an account changes nothing and, with
    the store up, answers [{"status": "ok"}]; the answer is the one a top-up
    of an existing account gets under the same conditions, so the caller
    cannot tell the two apart, whereas the balance query answers "not
    found". *)
Theorem topup_missing_account_ok db_ok user_id amount w :
  accounts w !! user_id = None →
  (topup db_ok user_id amount w).1 = w ∧
  (db_ok 0%nat = true → db_ok 1%nat = true →
     (topup db_ok user_id amount w).2 = inr StatusOk) ∧
  (∀ w2, (topup db_ok user_id amount w2).2 = (topup db_ok user_id amount w).2) ∧
  get_balance user_id w = NotFound.
Proof.
  intros Hacc. split; [|split; [|split]].
  - tx_unfold. rewrite Hacc.
    destruct (db_ok 0%nat), (db_ok 1%nat); simpl; by rewrite ?world_eta.
  - intros H0 H1. tx_unfold. by rewrite H0, H1, Hacc.
  - intros w2. tx_unfold.
    destruct (db_ok 0%nat), (db_ok 1%nat), (accounts w2 !! user_id), (accounts w !! user_id);
      done.
  - unfold get_balance. by rewrite Hacc.
Qed.

Lemma topup_missing_account_ok_witness :
  topup all_ok 8 50 race_world = (race_world, inr StatusOk) ∧
  (topup all_ok 7 50 race_world).2 = inr StatusOk ∧
  get_balance 8 race_world = NotFound.
Proof.
  destruct (topup_missing_account_ok all_ok 8 50 race_world) as (Hw & Hr & Hsame & Hget).
  - reflexivity.
  - split; [|split].
    + rewrite <- Hw at 2. rewrite <- Hr by reflexivity. apply surjective_pairing.
    + reflexivity.
    + exact Hget.
Defined.

(** *** Redelivery *)

Lemma rabbitmq_consumer_inbox_mono hash db_ok m w k p :
  inbox w !! k = Some p → inbox (rabbitmq_consumer hash db_ok m w).1 !! k = Some p.
Proof.
  intros Hk.
  destruct (rabbitmq_consumer_cases hash db_ok m w)
    as [(data & u & a & oid & Hb & Hwf & Hi & H0 & H1 & H2)|[-> _]]; [|done].
  rewrite (rabbitmq_consumer_fresh hash db_ok m w data u a oid) by done.
  simpl. rewrite lookup_insert_ne; [done|]. intros <-. congruence.
Qed.

Lemma consume_cons hash d ds w :
  consume hash (d :: ds) w =
    ((consume hash ds (rabbitmq_consumer hash d.1 d.2 w).1).1,
     (rabbitmq_consumer hash d.1 d.2 w).2
       :: (consume hash ds (rabbitmq_consumer hash d.1 d.2 w).1).2).
Proof.
  simpl. destruct (rabbitmq_consumer hash d.1 d.2 w) as [w1 r]. simpl.
  by destruct (consume hash ds w1).
Qed.

(** The inbox only grows. *)
Lemma consume_inbox_mono hash ds w k p :
  inbox w !! k = Some p → inbox (consume hash ds w).1 !! k = Some p.
Proof.
  revert w. induction ds as [|d ds IH]; intros w Hk; [done|].
  rewrite consume_cons. cbn [fst]. apply IH. by apply rabbitmq_consumer_inbox_mono.
Qed.

(** C4: once a delivery of an "order.created" message has been processed
    (one application of the conditional debit, one inbox row under the dedup
    identity, one "payment.processed" outbox row), a later delivery of a
    message with the same dedup identity, after any deliveries in between
    and whatever the state of the store, leaves the whole world as it is
    (balances, inbox and outbox) and is not processed again. *)
Theorem order_created_redelivery_idempotent hash db_ok m w w1 st :
  rabbitmq_consumer hash db_ok m w = (w1, inr (Processed st)) →
  (∃ data u a oid,
      Message.body m = Some data ∧ well_formed data u a oid ∧
      accounts w1 = accounts (debit u a w).1 ∧
      inbox w !! dedup_id hash m = None ∧
      inbox w1 = <[dedup_id hash m := true]> (inbox w) ∧
      outbox w1 = outbox w ++ [outcome_row (outbox w) oid st (JNum u)]) ∧
  ∀ (ds : list delivery) m' db_ok',
    dedup_id hash m' = dedup_id hash m →
    let w2 := (consume hash ds w1).1 in
    (rabbitmq_consumer hash db_ok' m' w2).1 = w2 ∧
    ∀ st', (rabbitmq_consumer hash db_ok' m' w2).2 ≠ inr (Processed st').
Proof.
  intros Hrun.
  destruct (rabbitmq_consumer_cases hash db_ok m w)
    as [(data & u & a & oid & Hb & Hwf & Hi & H0 & H1 & H2)|[_ Hno]]; cycle 1.
  { exfalso. apply (Hno st). by rewrite Hrun. }
  rewrite (rabbitmq_consumer_fresh hash db_ok m w data u a oid) in Hrun by done.
  injection Hrun as <- <-. split.
  - exists data, u, a, oid. done.
  - intros ds m' db_ok' Hid w2.
    assert (inbox w2 !! dedup_id hash m' = Some true) as Hin.
    { apply consume_inbox_mono. simpl. rewrite Hid. apply lookup_insert_eq. }
    destruct (rabbitmq_consumer_cases hash db_ok' m' w2)
      as [(? & ? & ? & ? & _ & _ & Hi' & _)|?]; [congruence|done].
Qed.

Lemma order_created_redelivery_idempotent_witness :
  let m := order_created "1" 11 7 100 in
  let w1 := (rabbitmq_consumer no_hash all_ok m race_world).1 in
  (rabbitmq_consumer no_hash all_ok m w1).1 = w1 ∧
  (rabbitmq_consumer no_hash all_ok m (rabbitmq_consumer no_hash all_ok m w1).1).1 = w1.
Proof.
  intros m w1.
  destruct (order_created_redelivery_idempotent no_hash all_ok m race_world w1 "FINISHED")
    as [_ Hre].
  - vm_compute. reflexivity.
  - split.
    + apply (Hre [] m all_ok). reflexivity.
    + apply (Hre [(all_ok, m)] m all_ok). reflexivity.
Defined.

(** *** Race resolution *)

Lemma consume_debit_attempts hash u amounts ms :
  Forall2 (is_debit_attempt u) amounts ms →
  ∀ w b,
    accounts w !! u = Some b →
    NoDup (dedup_id hash <$> ms) →
    (∀ m, m ∈ ms → inbox w !! dedup_id hash m = None) →
    (consume hash (pair all_ok <$> ms) w).2
      = settles <$> (affordable_in_arrival_order b amounts).1 ∧
    accounts (consume hash (pair all_ok <$> ms) w).1
      = <[u := (affordable_in_arrival_order b amounts).2]> (accounts w).
Proof.
  induction 1 as [|a m amounts ms (data & oid & Hb & Hwf) _ IH]; intros w b Hacc Hnd Hfresh.
  { simpl. split; [done|]. by rewrite insert_id. }
  rewrite fmap_cons in Hnd. apply NoDup_cons in Hnd as [Hnotin Hnd].
  assert (inbox w !! dedup_id hash m = None) as Hi by (apply Hfresh; left).
  rewrite fmap_cons, consume_cons. cbn [fst snd].
  rewrite (rabbitmq_consumer_fresh hash all_ok m w data u a oid) by done.
  cbn [affordable_in_arrival_order]. rewrite (debit_known u a b w Hacc).
  case_bool_decide as Hle; cbn [fst snd];
    match goal with |- context [consume _ _ ?w'] => set (w1 := w') end.
  - destruct (IH w1 (b - a)) as [IH1 IH2].
    { apply lookup_insert_eq. }
    { done. }
    { intros m' Hm'. simpl. rewrite lookup_insert_ne.
      - apply Hfresh. by right.
      - intros Heq. apply Hnotin. rewrite Heq. apply list_elem_of_fmap. eauto. }
    destruct (consume hash (pair all_ok <$> ms) w1) as [w2 rs].
    destruct (affordable_in_arrival_order (b - a) amounts) as [oks b'].
    cbn [fst snd] in *. rewrite IH1, IH2. subst w1. cbn. by rewrite insert_insert_eq.
  - destruct (IH w1 b) as [IH1 IH2].
    { done. }
    { done. }
    { intros m' Hm'. simpl. rewrite lookup_insert_ne.
      - apply Hfresh. by right.
      - intros Heq. apply Hnotin. rewrite Heq. apply list_elem_of_fmap. eauto. }
    destruct (consume hash (pair all_ok <$> ms) w1) as [w2 rs].
    destruct (affordable_in_arrival_order b amounts) as [oks b'].
    cbn [fst snd] in *. rewrite IH1, IH2. done.
Qed.

(** C2: debit attempts against one account, each a distinct message not seen
    before, handled one after the other with the store up, settle as the
    specification says: the attempts affordable in arrival order are
    FINISHED, the others are CANCELLED and leave the balance alone, and the
    final balance is what the affordable ones leave.  In particular five
    attempts of 100 against a balance of 100, in whatever order they arrive,
    give one FINISHED, four CANCELLED and a final balance of 0. *)
Theorem debits_settle_in_arrival_order hash w u b amounts ms :
  accounts w !! u = Some b →
  Forall2 (is_debit_attempt u) amounts ms →
  NoDup (dedup_id hash <$> ms) →
  (∀ m, m ∈ ms → inbox w !! dedup_id hash m = None) →
  let run := consume hash (pair all_ok <$> ms) w in
  let spec := affordable_in_arrival_order b amounts in
  run.2 = settles <$> spec.1 ∧
  accounts run.1 = <[u := spec.2]> (accounts w) ∧
  (b = 100 → amounts = [100; 100; 100; 100; 100] →
     count_status "FINISHED" run.2 = 1%nat ∧ count_status "CANCELLED" run.2 = 4%nat ∧
     accounts run.1 !! u = Some 0).
Proof.
  intros Hacc Hms Hnd Hfresh run spec.
  destruct (consume_debit_attempts hash u amounts ms Hms w b Hacc Hnd Hfresh) as [H1 H2].
  fold run spec in H1, H2. split; [done|]. split; [done|].
  intros -> ->. rewrite H1, H2. subst spec. rewrite lookup_insert_eq. done.
Qed.

Lemma debits_settle_in_arrival_order_witness :
  let run := consume no_hash (pair all_ok <$> race_messages) race_world in
  count_status "FINISHED" run.2 = 1%nat ∧ count_status "CANCELLED" run.2 = 4%nat ∧
  accounts run.1 !! 7 = Some 0.
Proof.
  destruct (debits_settle_in_arrival_order no_hash race_world 7 100
              [100; 100; 100; 100; 100] race_messages) as (_ & _ & Hrace).
  - reflexivity.
  - repeat constructor; eexists _, _; (split; [reflexivity|]); repeat split; reflexivity.
  - apply (bool_decide_unpack _). vm_compute. exact I.
  - intros m _. reflexivity.
  - apply Hrace; reflexivity.
Defined.

End PaymentProofs.

(** ** The outbox relays *)

Module RelayProofs.

Lemma mark_all_selected batch rows : mark_all batch rows = mark_selected batch rows.
Proof.
  revert rows. induction batch as [|b batch IH]; intros rows.
  - unfold mark_selected, mark_all. cbn [foldl].
    rewrite <- (list_fmap_id rows) at 1. apply list_fmap_ext. intros _ r _.
    rewrite bool_decide_eq_false_2; [done|]. rewrite fmap_nil. apply not_elem_of_nil.
  - unfold mark_all in *. simpl. rewrite IH. unfold mark_selected, mark_processed.
    rewrite <- list_fmap_compose. apply list_fmap_ext. intros _ r _. simpl.
    destruct (decide (Outbox.id r = Outbox.id b)) as [E|E].
    + rewrite (bool_decide_eq_true_2 (Outbox.id r = Outbox.id b)) by done.
      rewrite (bool_decide_eq_true_2 (Outbox.id r ∈ _ :: _)) by (rewrite E; left).
      simpl. by case_bool_decide.
    + rewrite (bool_decide_eq_false_2 (Outbox.id r = Outbox.id b)) by done.
      case_bool_decide as H1; case_bool_decide as H2; try done.
      * destruct H2. by right.
      * apply elem_of_cons in H2 as [?|?]; done.
Qed.

Lemma accepted_prefix_all accepts batch :
  Forall (λ r, accepts (to_message r) = true) batch → accepted_prefix accepts batch = batch.
Proof. induction 1 as [|r batch Hr _ IH]; simpl; [done|]. by rewrite Hr, IH. Qed.

Lemma forallb_accepts_all accepts (batch : list Outbox.t) :
  Forall (λ r, accepts (to_message r) = true) batch →
  forallb (λ r, accepts (to_message r)) batch = true.
Proof. induction 1 as [|r batch Hr _ IH]; simpl; [done|]. by rewrite Hr, IH. Qed.

Lemma forallb_accepts_some accepts (batch : list Outbox.t) :
  Exists (λ r, accepts (to_message r) = false) batch →
  forallb (λ r, accepts (to_message r)) batch = false.
Proof.
  induction 1 as [r batch Hr|r batch _ IH]; simpl.
  - by rewrite Hr.
  - rewrite IH. apply andb_false_r.
Qed.

Lemma select_unprocessed_spec rows r :
  r ∈ select_unprocessed rows → r ∈ rows ∧ Outbox.processed r = false.
Proof.
  unfold select_unprocessed. intros Hr.
  apply (subseteq_take 10) in Hr. apply list_elem_of_filter in Hr. tauto.
Qed.

(** From the equation of a poll to its description. *)
Lemma relay_poll_spec_intro accepts commit_ok rows log :
  let batch := select_unprocessed rows in
  let log' := log ++ (to_message <$> accepted_prefix accepts batch) in
  relay_poll_spec accepts commit_ok rows
    (if forallb (λ r, accepts (to_message r)) batch && commit_ok
     then mark_all (accepted_prefix accepts batch) rows else rows)
    log log'
    (if forallb (λ r, accepts (to_message r)) batch
     then if commit_ok then None else Some DBAPIError
     else Some AMQPError).
Proof.
  intros batch log'. subst batch log'.
  split; [apply select_unprocessed_spec|]. split.
  - intros Hall ->.
    rewrite (accepted_prefix_all _ _ Hall), (forallb_accepts_all _ _ Hall).
    cbn. by rewrite mark_all_selected.
  - intros Hsome. rewrite (forallb_accepts_some _ _ Hsome). cbn.
    split; [done|]. split; [apply select_unprocessed_spec|done].
Qed.

(** The loop of the payment service's relay: it stops at the first message
    the broker refuses. *)
Lemma payment_relay_loop accepts batch w :
  for_each (λ msg,
      PaymentService.exchange_publish accepts (to_message msg);;
      modify (PaymentService.set_outbox (mark_processed (Outbox.id msg)))) batch w =
  (PaymentService.mkWorld (PaymentService.accounts w) (PaymentService.inbox w)
     (mark_all (accepted_prefix accepts batch) (PaymentService.outbox w))
     (PaymentService.exchange w ++ (to_message <$> accepted_prefix accepts batch)),
   if forallb (λ r, accepts (to_message r)) batch then inr tt else inl AMQPError).
Proof.
  revert w. induction batch as [|r batch IH]; intros w.
  - simpl. unfold mret, tx_ret. rewrite app_nil_r. by destruct w.
  - cbn [for_each accepted_prefix].
    unfold mbind, tx_bind, PaymentService.exchange_publish, modify.
    destruct (accepts (to_message r)) eqn:Hr.
    + fold (@for_each PaymentService.World Outbox.t). rewrite IH. cbn. rewrite Hr.
      by rewrite <- app_assoc.
    + cbn. rewrite Hr, app_nil_r. by destruct w.
Qed.

Lemma payment_relay_poll db_ok accepts w :
  db_ok 0%nat = true →
  PaymentService.outbox_processor db_ok accepts w =
    let batch := select_unprocessed (PaymentService.outbox w) in
    (PaymentService.mkWorld (PaymentService.accounts w) (PaymentService.inbox w)
       (if forallb (λ r, accepts (to_message r)) batch && db_ok 1%nat
        then mark_all (accepted_prefix accepts batch) (PaymentService.outbox w)
        else PaymentService.outbox w)
       (PaymentService.exchange w ++ (to_message <$> accepted_prefix accepts batch)),
     inr (if forallb (λ r, accepts (to_message r)) batch
          then if db_ok 1%nat then None else Some DBAPIError
          else Some AMQPError)).
Proof.
  intros H0. unfold PaymentService.outbox_processor, try_except, session_begin, execute.
  unfold mbind at 1. unfold tx_bind at 1. rewrite H0.
  rewrite payment_relay_loop. cbv zeta.
  destruct (forallb _ _); [destruct (db_ok 1%nat)|]; done.
Qed.

(** The same loop in the order service. *)
Lemma order_relay_loop accepts batch w :
  for_each (λ msg,
      OrderService.exchange_publish accepts (to_message msg);;
      modify (OrderService.set_outbox (mark_processed (Outbox.id msg)))) batch w =
  (OrderService.mkWorld (OrderService.orders w)
     (mark_all (accepted_prefix accepts batch) (OrderService.outbox w))
     (OrderService.exchange w ++ (to_message <$> accepted_prefix accepts batch))
     (OrderService.active_connections w) (OrderService.frames w),
   if forallb (λ r, accepts (to_message r)) batch then inr tt else inl AMQPError).
Proof.
  revert w. induction batch as [|r batch IH]; intros w.
  - simpl. unfold mret, tx_ret. rewrite app_nil_r. by destruct w.
  - cbn [for_each accepted_prefix].
    unfold mbind, tx_bind, OrderService.exchange_publish, modify.
    destruct (accepts (to_message r)) eqn:Hr.
    + fold (@for_each OrderService.World Outbox.t). rewrite IH. cbn. rewrite Hr.
      by rewrite <- app_assoc.
    + cbn. rewrite Hr, app_nil_r. by destruct w.
Qed.

Lemma order_relay_poll db_ok accepts w :
  db_ok 0%nat = true →
  OrderService.outbox_processor db_ok accepts w =
    let batch := select_unprocessed (OrderService.outbox w) in
    (OrderService.mkWorld (OrderService.orders w)
       (if forallb (λ r, accepts (to_message r)) batch && db_ok 1%nat
        then mark_all (accepted_prefix accepts batch) (OrderService.outbox w)
        else OrderService.outbox w)
       (OrderService.exchange w ++ (to_message <$> accepted_prefix accepts batch))
       (OrderService.active_connections w) (OrderService.frames w),
     inr (if forallb (λ r, accepts (to_message r)) batch
          then if db_ok 1%nat then None else Some DBAPIError
          else Some AMQPError)).
Proof.
  intros H0. unfold OrderService.outbox_processor, try_except, session_begin, execute.
  unfold mbind at 1. unfold tx_bind at 1. rewrite H0.
  rewrite order_relay_loop. cbv zeta.
  destruct (forallb _ _); [destruct (db_ok 1%nat)|]; done.
Qed.

(** C6: in a poll of either relay whose select reached the store, the batch
    is made of unprocessed rows; when every publish succeeds and the
    transaction commits, each row of the batch has been published, in order,
    with its own key (in decimal) as message id and with its routing key, and
    exactly the rows of the batch are marked processed; when a publish of the
    batch fails, the transaction is rolled back: the outbox table is as it
    was and every row of the batch is still unprocessed. *)
Theorem relay_batch_publishes_then_marks db_ok accepts :
  db_ok 0%nat = true →
  (∀ w : OrderService.World,
     let run := OrderService.outbox_processor db_ok accepts w in
     relay_poll_spec accepts (db_ok 1%nat)
       (OrderService.outbox w) (OrderService.outbox run.1)
       (OrderService.exchange w) (OrderService.exchange run.1) (logged run.2)) ∧
  (∀ w : PaymentService.World,
     let run := PaymentService.outbox_processor db_ok accepts w in
     relay_poll_spec accepts (db_ok 1%nat)
       (PaymentService.outbox w) (PaymentService.outbox run.1)
       (PaymentService.exchange w) (PaymentService.exchange run.1) (logged run.2)).
Proof.
  intros H0. split; intros w run; subst run.
  - rewrite order_relay_poll by done. apply relay_poll_spec_intro.
  - rewrite payment_relay_poll by done. apply relay_poll_spec_intro.
Qed.

Lemma relay_batch_publishes_then_marks_witness :
  (let run := OrderService.outbox_processor all_ok (λ _, true) OrderService.relay_world in
   OrderService.exchange run.1 =
     [Message.mk (Some "2") "order.created" (Some (OrderService.order_created_payload 2 7 100));
      Message.mk (Some "3") "order.created" (Some (OrderService.order_created_payload 3 7 100))] ∧
   Outbox.processed <$> OrderService.outbox run.1 = [true; true; true]) ∧
  (let run := PaymentService.outbox_processor all_ok (refuses "3") PaymentService.relay_world in
   PaymentService.outbox run.1 = PaymentService.outbox PaymentService.relay_world ∧
   logged run.2 = Some AMQPError).
Proof.
  split.
  - destruct (relay_batch_publishes_then_marks all_ok (λ _, true) eq_refl) as [Horder _].
    destruct (Horder OrderService.relay_world) as (_ & Hsuccess & _).
    destruct Hsuccess as (Hlog & Hrows & _).
    + apply Forall_forall. reflexivity.
    + reflexivity.
    + cbv zeta. rewrite Hlog, Hrows. split; vm_compute; reflexivity.
  - destruct (relay_batch_publishes_then_marks all_ok (refuses "3") eq_refl) as [_ Hpayment].
    destruct (Hpayment PaymentService.relay_world) as (_ & _ & Hfailure).
    destruct Hfailure as (Hrows & _ & Herr).
    + apply Exists_cons_tl, Exists_cons_hd. reflexivity.
    + cbv zeta. split; assumption.
Defined.

End RelayProofs.

(** ** The order service *)

Module OrderProofs.
Import OrderService.

(** *** Order creation *)

Lemma next_order_id_fresh rows o : o ∈ rows → Order.id o < next_order_id rows.
Proof.
  unfold next_order_id.
  induction 1 as [o rows|o o' rows _ IH]; rewrite fmap_cons; simpl; lia.
Qed.

(** Both rows, or the world as it was. *)
Lemma create_order_eq db_ok req w :
  create_order db_ok req w =
    let oid := next_order_id (orders w) in
    if db_ok 0%nat && db_ok 1%nat && db_ok 2%nat
    then (mkWorld
            (orders w ++ [Order.mk oid (req_user_id req) (req_description req)
                            (req_amount req) "NEW"])
            (outbox w ++ [Outbox.mk (next_outbox_id (outbox w)) "order.created"
                            (order_created_payload oid (req_user_id req) (req_amount req))
                            false])
            (exchange w) (active_connections w) (frames w),
          inr (mkOrderResp oid "NEW"))
    else (w, inl DBAPIError).
Proof.
  unfold create_order, session_begin, execute, mbind, tx_bind, mret, tx_ret,
    add_order, add_outbox, rollback, world_store.
  destruct (db_ok 0%nat), (db_ok 1%nat), (db_ok 2%nat), w; done.
Qed.

Example create_order_first :
  create_order all_ok (mkOrderReq 7 "book" 100) empty_world =
    (mkWorld [Order.mk 1 7 "book" 100 "NEW"]
       [Outbox.mk 1 "order.created" (order_created_payload 1 7 100) false] [] ∅ [],
     inr (mkOrderResp 1 "NEW")).
Proof. by rewrite create_order_eq. Qed.

(** The crash injected after the insert of the order and before the insert
    of the outbox row. *)
Example create_order_crash_between_inserts :
  create_order (λ n, bool_decide (n ≠ 1%nat)) (mkOrderReq 7 "book" 100) empty_world =
    (empty_world, inl DBAPIError).
Proof. by rewrite create_order_eq. Qed.

(** C3: an order creation whose transaction commits answers with the key of
    the new order, a key no other order has, and status "NEW", and has
    inserted the order with status NEW together with one outbox row, routing
    key "order.created", whose payload carries that key, the user and the
    amount; when a statement or the commit fails the call fails and the
    world is as it was, with neither row. *)
Theorem create_order_atomic db_ok req w :
  let w' := (create_order db_ok req w).1 in
  let r := (create_order db_ok req w).2 in
  let oid := next_order_id (orders w) in
  (db_ok 0%nat = true → db_ok 1%nat = true → db_ok 2%nat = true →
     r = inr (mkOrderResp oid "NEW") ∧
     (∀ o, o ∈ orders w → Order.id o ≠ oid) ∧
     orders w' = orders w ++
       [Order.mk oid (req_user_id req) (req_description req) (req_amount req) "NEW"] ∧
     ∃ payload,
       outbox w' = outbox w ++
         [Outbox.mk (next_outbox_id (outbox w)) "order.created" payload false] ∧
       payload !! "order_id" = Some (JNum oid) ∧
       payload !! "user_id" = Some (JNum (req_user_id req)) ∧
       payload !! "amount" = Some (JNum (req_amount req))) ∧
  ((db_ok 0%nat = false ∨ db_ok 1%nat = false ∨ db_ok 2%nat = false) →
     r = inl DBAPIError ∧ w' = w).
Proof.
  intros w' r oid. subst w' r. rewrite create_order_eq. cbv zeta.
  fold oid. split.
  - intros -> -> ->. cbn. split; [done|]. split.
    { intros o Ho%next_order_id_fresh. fold oid in Ho. lia. }
    split; [done|]. eexists. split; [done|].
    unfold order_created_payload. by simplify_map_eq.
  - intros [-> | [-> | ->]]; cbn; rewrite ?andb_false_r; done.
Qed.

(** C8, as the code has it: the request model puts no bound on the amount,
    so with the store up EVERY request, whatever its amount, is answered with
    the new key and status "NEW" and its order is inserted with the amount
    of the request. *)
Theorem create_order_accepts_any_amount db_ok req w :
  db_ok 0%nat = true → db_ok 1%nat = true → db_ok 2%nat = true →
  (create_order db_ok req w).2 = inr (mkOrderResp (next_order_id (orders w)) "NEW") ∧
  Order.mk (next_order_id (orders w)) (req_user_id req) (req_description req)
    (req_amount req) "NEW" ∈ orders (create_order db_ok req w).1.
Proof.
  intros H0 H1 H2. rewrite create_order_eq, H0, H1, H2. cbn. split; [done|].
  apply elem_of_app. right. by left.
Qed.

Lemma create_order_accepts_any_amount_witness :
  (create_order all_ok (mkOrderReq 7 "book" 100) empty_world).2 = inr (mkOrderResp 1 "NEW") ∧
  Order.mk 1 7 "book" 100 "NEW"
    ∈ orders (create_order all_ok (mkOrderReq 7 "book" 100) empty_world).1.
Proof.
  apply (create_order_accepts_any_amount all_ok (mkOrderReq 7 "book" 100) empty_world);
    reflexivity.
Defined.

(** C8 fails as stated: a request with amount -5 is accepted and its order
    is created. *)
Lemma create_order_accepts_negative_amount :
  req_amount (mkOrderReq 7 "refund" (-5)) ≤ 0 ∧
  create_order all_ok (mkOrderReq 7 "refund" (-5)) empty_world =
    (mkWorld [Order.mk 1 7 "refund" (-5) "NEW"]
       [Outbox.mk 1 "order.created" (order_created_payload 1 7 (-5)) false] [] ∅ [],
     inr (mkOrderResp 1 "NEW")).
Proof. split; [done|]. by rewrite create_order_eq. Qed.

(** *** The notification hub *)

(** The loop of [send_to_user] stops at the first socket that fails. *)
Lemma send_loop ws_ok message connections w :
  for_each (send_text ws_ok message) connections w =
    (set_frames (λ log,
       log ++ ((λ c, (c, message)) <$> sent_before_failure ws_ok connections)) w,
     if forallb ws_ok connections then inr tt else inl WebSocketError).
Proof.
  revert w. induction connections as [|c rest IH]; intros w.
  - cbn. unfold mret, tx_ret, set_frames. rewrite app_nil_r. by destruct w.
  - cbn [for_each sent_before_failure forallb]. unfold mbind, tx_bind, send_text.
    destruct (ws_ok c) eqn:Hc.
    + fold (@for_each World WebSocket). rewrite IH. unfold set_frames. cbn.
      by rewrite <- app_assoc.
    + cbn. unfold set_frames. rewrite app_nil_r. by destruct w.
Qed.

Lemma send_to_user_eq ws_ok message user_id w :
  send_to_user ws_ok message user_id w =
    (set_frames (λ log, log ++
       ((λ c, (c, message)) <$> sent_before_failure ws_ok (connections_of user_id w))) w,
     if forallb ws_ok (connections_of user_id w) then inr tt else inl WebSocketError).
Proof.
  unfold send_to_user, connections_of.
  destruct (active_connections w !! user_id) as [l|]; [apply send_loop|].
  cbn. unfold set_frames. rewrite app_nil_r. by destruct w.
Qed.

Lemma sent_before_failure_all ws_ok l :
  Forall (λ c, ws_ok c = true) l → sent_before_failure ws_ok l = l.
Proof. induction 1 as [|c l Hc _ IH]; cbn; [done|]. by rewrite Hc, IH. Qed.

Lemma sent_before_failure_split ws_ok l1 c l2 :
  Forall (λ c, ws_ok c = true) l1 → ws_ok c = false →
  sent_before_failure ws_ok (l1 ++ c :: l2) = l1.
Proof.
  induction 1 as [|c1 l1 Hc _ IH]; intros Hf; cbn.
  - by rewrite Hf.
  - by rewrite Hc, IH.
Qed.

(** C9 fails as stated: user 7 has the sockets 1 and 2, socket 1 is closed
    and socket 2 is open; the send to socket 1 raises and socket 2 gets no
    frame. *)
Lemma send_failure_blocks_later_sockets :
  connections_of 7 hub_two_sockets = [1%nat; 2%nat] ∧
  first_socket_closed 2%nat = true ∧
  send_to_user first_socket_closed (payment_processed 1 "FINISHED" 7) 7 hub_two_sockets
    = (hub_two_sockets, inl WebSocketError) ∧
  frames hub_two_sockets = [].
Proof. done. Qed.

(** C9, as the code has it: [send_to_user] sends the payload to the sockets
    registered for the user in the order of their registration, and stops at
    the first send that fails.  The frames it adds go to a prefix of the
    user's own sockets (so to no socket that is registered for another user
    only); when no send fails every socket of the user gets the payload;
    when a send fails the call raises and only the sockets before the
    failing one have got the payload.  The consumer calls it with the payload
    of the result it has just applied. *)
Theorem send_to_user_stops_at_first_failure ws_ok message user_id w :
  let w' := (send_to_user ws_ok message user_id w).1 in
  let r := (send_to_user ws_ok message user_id w).2 in
  (∃ sent, frames w' = frames w ++ ((λ c, (c, message)) <$> sent) ∧
           sent `prefix_of` connections_of user_id w) ∧
  (Forall (λ c, ws_ok c = true) (connections_of user_id w) →
     frames w' = frames w ++ ((λ c, (c, message)) <$> connections_of user_id w) ∧
     r = inr tt) ∧
  (∀ before c after,
     connections_of user_id w = before ++ c :: after →
     Forall (λ c, ws_ok c = true) before → ws_ok c = false →
     frames w' = frames w ++ ((λ c, (c, message)) <$> before) ∧ r = inl WebSocketError) ∧
  (∀ db_ok m order_id status,
     Message.body m = Some message →
     message !! "order_id" = Some (JNum order_id) →
     message !! "status" = Some (JStr status) →
     message !! "user_id" = Some (JNum user_id) →
     db_ok 0%nat = true → db_ok 1%nat = true →
     frames (payment_result_consumer db_ok ws_ok m w).1 = frames w').
Proof.
  intros w' r. subst w' r. rewrite send_to_user_eq. cbn [fst snd set_frames frames].
  split; [|split; [|split]]; cycle 3.
  { intros db_ok m k st Hb Ho Hs Hu H0 H1.
    unfold payment_result_consumer, getitem, mbind, tx_bind, mret, tx_ret, session_begin,
      as_number, as_text, execute.
    rewrite Hb, Ho, Hs, Hu, H0, H1. cbn. by rewrite send_to_user_eq. }
  - eexists. split; [done|].
    induction (connections_of user_id w) as [|c l IH]; cbn; [done|].
    destruct (ws_ok c); [by apply prefix_cons|apply prefix_nil].
  - intros Hall. rewrite sent_before_failure_all by done. split; [done|].
    rewrite (proj2 (forallb_forall _ _)); [done|].
    intros c Hc%list_elem_of_In. by apply (proj1 (Forall_forall _ _) Hall).
  - intros before c after -> Hall Hc. rewrite sent_before_failure_split by done.
    split; [done|]. rewrite forallb_app. cbn. rewrite Hc. cbn. by rewrite andb_false_r.
Qed.

(** *** The order status consumer *)

(** A payment result leaves the orders alone or applies its update. *)
Lemma payment_result_consumer_orders db_ok ws_ok m w :
  orders (payment_result_consumer db_ok ws_ok m w).1 = orders w ∨
  ∃ data k st, Message.body m = Some data ∧
    data !! "order_id" = Some (JNum k) ∧ data !! "status" = Some (JStr st) ∧
    orders (payment_result_consumer db_ok ws_ok m w).1 = orders (update_status k st w).1.
Proof.
  unfold payment_result_consumer.
  destruct (Message.body m) as [data|] eqn:Hb; [|by left].
  unfold getitem, mbind, tx_bind, mret, tx_ret, raise, session_begin, as_number, as_text,
    execute, rollback, world_store.
  destruct (data !! "order_id") as [[k|?]|] eqn:Ho; cbn;
  destruct (data !! "status") as [[?|st]|] eqn:Hs; cbn;
  destruct (data !! "user_id") as [[uid|?]|] eqn:Hu; cbn; try (by left).
  - destruct (db_ok 0%nat); [|by left]. cbn. destruct (db_ok 1%nat); [|by left].
    right. exists data, k, st. rewrite send_to_user_eq. done.
  - destruct (db_ok 0%nat); [|by left]. cbn. destruct (db_ok 1%nat); [|by left].
    right. exists data, k, st. done.
Qed.

Lemma update_status_same k st w i o :
  orders w !! i = Some o → (Order.id o = k → Order.status o = st) →
  orders (update_status k st w).1 !! i = Some o.
Proof.
  intros Hi Hst. cbn. rewrite list_lookup_fmap, Hi. cbn. f_equal.
  case_bool_decide as Hk; [|done]. destruct o. cbn in *. by rewrite Hst.
Qed.

Lemma update_status_idempotent k st w :
  update_status k st (update_status k st w).1 = update_status k st w.
Proof.
  unfold update_status, set_orders. cbn. do 2 f_equal.
  rewrite <- list_fmap_compose. apply list_fmap_ext. intros _ o _. cbn.
  destruct (decide (Order.id o = k)) as [E|E].
  - rewrite (bool_decide_eq_true_2 _ E). cbn. by rewrite (bool_decide_eq_true_2 _ E).
  - rewrite (bool_decide_eq_false_2 _ E). by rewrite (bool_decide_eq_false_2 _ E).
Qed.

(** The consumer by itself has no guard on the current status: handed a
    message that says CANCELLED for order 1, which is FINISHED, it writes
    CANCELLED.  The payment service publishes one result per order, so no
    such message reaches the queue (see [ShopRun]). *)
Example status_overwritten_by_later_result :
  orders settled_order = [Order.mk 1 7 "book" 100 "FINISHED"] ∧
  orders (payment_result_consumer all_ok (λ _, true) late_cancel settled_order).1
    = [Order.mk 1 7 "book" 100 "CANCELLED"].
Proof. split; [done|]. vm_compute. reflexivity. Qed.

(** The consumer writes the status a result carries into the order it
    names, whatever the order's status was.  So an order
    whose status is [st] keeps it, row unchanged, under any sequence of
    deliveries in which the results for this order carry [st] (repeated
    redelivery of its result, mixed with results for other orders, whatever
    the state of the store and of the sockets), and applying the same update
    twice is applying it once. *)
Theorem status_stable_under_same_result ds k st w i o :
  Forall (λ d : result_delivery, carries k st d.2) ds →
  orders w !! i = Some o → Order.id o = k → Order.status o = st →
  orders (consume_results ds w) !! i = Some o ∧
  update_status k st (update_status k st w).1 = update_status k st w.
Proof.
  intros Hds Hi Hk Hst. split; [|apply update_status_idempotent].
  revert w Hi. induction Hds as [|d ds Hd _ IH]; intros w Hi; [done|].
  cbn. apply IH.
  destruct (payment_result_consumer_orders d.1.1 d.1.2 d.2 w)
    as [->|(data & k' & st' & Hb & Ho & Hs & ->)]; [done|].
  apply update_status_same; [done|]. intros Hk'.
  rewrite Hst. symmetry. apply (Hd data st' Hb); [|done]. congruence.
Qed.

Lemma status_stable_under_same_result_witness :
  orders (consume_results
            [(all_ok, λ _, true, repeated_finish); (all_ok, λ _, true, repeated_finish)]
            settled_order) !! 0%nat
    = Some (Order.mk 1 7 "book" 100 "FINISHED").
Proof.
  apply (status_stable_under_same_result
           [(all_ok, λ _, true, repeated_finish); (all_ok, λ _, true, repeated_finish)]
           1 "FINISHED" settled_order 0%nat (Order.mk 1 7 "book" 100 "FINISHED")).
  - repeat constructor; intros data s [= <-] _ Hs; vm_compute in Hs; congruence.
  - reflexivity.
  - reflexivity.
  - reflexivity.
Defined.

End OrderProofs.

(** ** The accounts and the consumer of the payment service, further *)

Module PaymentExtras.
Import PaymentService PaymentProofs.


Ltac api_unfold :=
  unfold create_account, add_account, topup, session_begin, execute, rollback, world_store,
    mbind, tx_bind, mret, tx_ret in *.

(** X1: account creation for a user without an account, with the store up, inserts
    the account with balance 0, answers "created", and the balance query then
    answers 0; for a user who has an account the insert hits the primary key,
    the call raises and the world (the existing balance included) is as it
    was; when the store fails the call raises and nothing is inserted. *)
Theorem create_account_fresh_or_conflict db_ok user_id w :
  let run := create_account db_ok user_id w in
  (accounts w !! user_id = None → db_ok 0%nat = true → db_ok 1%nat = true →
     run = (set_accounts <[user_id := 0]> w, inr StatusCreated) ∧
     get_balance user_id run.1 = Balance 0) ∧
  (is_Some (accounts w !! user_id) → db_ok 0%nat = true →
     run = (w, inl IntegrityError)) ∧
  (db_ok 0%nat = false ∨ db_ok 1%nat = false → run.1 = w ∧ ∃ e, run.2 = inl e).
Proof.
  intros run. subst run. split; [|split].
  - intros Hacc H0 H1. api_unfold. rewrite H0, H1, Hacc. cbn. split; [done|].
    unfold get_balance. cbn. by rewrite lookup_insert_eq.
  - intros [b Hacc] H0. api_unfold. rewrite H0, Hacc. cbn. by rewrite world_eta.
  - intros Hdown. api_unfold.
    destruct (db_ok 0%nat), (db_ok 1%nat), (accounts w !! user_id);
      cbn; rewrite ?world_eta; try (by eauto); by destruct Hdown.
Qed.

(** X2: a top-up of an existing account, with the store up, adds the amount
    (whatever its sign) to the balance, answers "ok", and the balance query
    then answers the sum; when the statement or the commit fails the call
    raises and the world is as it was. *)
Theorem topup_adds_or_rolls_back db_ok user_id amount balance w :
  accounts w !! user_id = Some balance →
  let run := topup db_ok user_id amount w in
  (db_ok 0%nat = true → db_ok 1%nat = true →
     run = (set_accounts <[user_id := balance + amount]> w, inr StatusOk) ∧
     get_balance user_id run.1 = Balance (balance + amount)) ∧
  (db_ok 0%nat = false ∨ db_ok 1%nat = false → run = (w, inl DBAPIError)).
Proof.
  intros Hacc run. subst run. split.
  - intros H0 H1. api_unfold. rewrite H0, H1, Hacc. cbn. split; [done|].
    unfold get_balance. cbn. by rewrite lookup_insert_eq.
  - intros Hdown. api_unfold. rewrite Hacc.
    destruct (db_ok 0%nat), (db_ok 1%nat); cbn; rewrite ?world_eta; try done;
      by destruct Hdown.
Qed.

Lemma topup_adds_or_rolls_back_witness :
  topup all_ok 7 50 race_world = (set_accounts <[7 := 100 + 50]> race_world, inr StatusOk) ∧
  get_balance 7 (topup all_ok 7 50 race_world).1 = Balance (100 + 50).
Proof.
  destruct (topup_adds_or_rolls_back all_ok 7 50 100 race_world) as [Hup _].
  - reflexivity.
  - apply Hup; reflexivity.
Defined.

Lemma pretty_N_go_nonempty x s : s ≠ "" → pretty_N_go x s ≠ "".
Proof.
  revert s. induction (N.lt_wf_0 x) as [x _ IH]; intros s Hs.
  destruct (decide (x = 0)%N) as [->|Hx].
  - by rewrite pretty_N_go_0.
  - rewrite pretty_N_go_step by lia. apply IH; [|done].
    apply N.div_lt; lia.
Qed.

Lemma pretty_N_nonempty (x : N) : pretty x ≠ "".
Proof.
  unfold pretty, pretty_N. case_decide as Hx; [done|].
  rewrite pretty_N_go_step by lia. by apply pretty_N_go_nonempty.
Qed.

Lemma pretty_Z_nonempty (z : Z) : pretty z ≠ "".
Proof.
  destruct z as [|p|p]; unfold pretty, pretty_Z; [done| |done].
  apply pretty_N_nonempty.
Qed.

Lemma dedup_id_to_message hash r : dedup_id hash (to_message r) = pretty (Outbox.id r).
Proof.
  unfold dedup_id, to_message. cbn.
  rewrite bool_decide_eq_false_2; [done|]. apply pretty_Z_nonempty.
Qed.

(** X4: a message published by a relay is deduplicated under the decimal
    text of the key of its outbox row, never under the hash of its body, and
    two relayed messages have the same dedup identity exactly when their rows
    have the same key. *)
Theorem relayed_message_identity hash r1 r2 :
  dedup_id hash (to_message r1) = pretty (Outbox.id r1) ∧
  (dedup_id hash (to_message r1) = dedup_id hash (to_message r2)
     ↔ Outbox.id r1 = Outbox.id r2).
Proof.
  split; [apply dedup_id_to_message|]. rewrite !dedup_id_to_message. split.
  - apply (inj pretty).
  - by intros ->.
Qed.

(** X5: how the payment consumer treats a message it cannot process.  A body
    that does not decode raises before the store is touched.  For a message
    that is not in the inbox, the first of "user_id", "amount", "order_id"
    that is missing raises a KeyError for that key, and a "user_id" that is a
    string is refused by the statement; in each case the world is as it was,
    so the message is not recorded in the inbox.  The inbox is looked up
    before the fields are read: a message whose identity is in the inbox is
    answered as a duplicate whatever its fields are. *)
Theorem rabbitmq_consumer_rejects_malformed hash db_ok m w :
  let run := rabbitmq_consumer hash db_ok m w in
  (Message.body m = None → run = (w, inl JSONDecodeError)) ∧
  (∀ data, Message.body m = Some data →
     inbox w !! dedup_id hash m = None → db_ok 0%nat = true →
     (data !! "user_id" = None → run = (w, inl (KeyError "user_id"))) ∧
     (is_Some (data !! "user_id") → data !! "amount" = None →
        run = (w, inl (KeyError "amount"))) ∧
     (is_Some (data !! "user_id") → is_Some (data !! "amount") →
        data !! "order_id" = None → run = (w, inl (KeyError "order_id"))) ∧
     (∀ s, is_Some (data !! "amount") → is_Some (data !! "order_id") →
        data !! "user_id" = Some (JStr s) → run = (w, inl DBAPIError))) ∧
  (∀ data, Message.body m = Some data →
     is_Some (inbox w !! dedup_id hash m) → db_ok 0%nat = true → db_ok 2%nat = true →
     run = (w, inr Duplicate)).
Proof.
  intros run. subst run. split; [|split].
  - intros Hb. unfold rabbitmq_consumer. by rewrite Hb.
  - intros data Hb Hi H0. repeat split.
    + intros Hu. tx_unfold. rewrite Hb, H0, Hi, Hu. cbn. by rewrite world_eta.
    + intros [uv Hu] Ha. tx_unfold. rewrite Hb, H0, Hi, Hu, Ha. cbn. by rewrite world_eta.
    + intros [uv Hu] [av Ha] Ho. tx_unfold. rewrite Hb, H0, Hi, Hu, Ha, Ho. cbn.
      by rewrite world_eta.
    + intros s [av Ha] [ov Ho] Hu. tx_unfold. rewrite Hb, H0, Hi, Hu, Ha, Ho. cbn.
      by rewrite world_eta.
  - intros data Hb [p Hi] H0 H2. tx_unfold. by rewrite Hb, H0, Hi, H2.
Qed.

Lemma debit_frame u a w :
  dom (accounts (debit u a w).1) = dom (accounts w) ∧
  ∀ k, k ≠ u → accounts (debit u a w).1 !! k = accounts w !! k.
Proof.
  unfold debit. destruct (accounts w !! u) as [b|] eqn:Hacc; [|done].
  case_bool_decide; [|done]. cbn. split.
  - apply dom_insert_lookup_L. by eexists.
  - intros k Hk. by rewrite lookup_insert_ne.
Qed.

(** X6: handling a message never creates or deletes an account and never
    publishes to the broker, and the only balance it can change is that of
    the user named by the "user_id" of the message. *)
Theorem rabbitmq_consumer_touches_one_account hash db_ok m w :
  let w' := (rabbitmq_consumer hash db_ok m w).1 in
  dom (accounts w') = dom (accounts w) ∧
  exchange w' = exchange w ∧
  ∀ k, accounts w' !! k ≠ accounts w !! k →
    ∃ data, Message.body m = Some data ∧ data !! "user_id" = Some (JNum k).
Proof.
  intros w'. subst w'.
  destruct (rabbitmq_consumer_cases hash db_ok m w)
    as [(data & u & a & oid & Hb & Hwf & Hi & H0 & H1 & H2)|[-> _]]; [|done].
  rewrite (rabbitmq_consumer_fresh hash db_ok m w data u a oid) by done.
  cbn. destruct (debit_frame u a w) as [Hdom Hother].
  split; [done|]. split; [done|].
  intros k Hk. exists data. split; [done|].
  destruct (decide (k = u)) as [->|Hne]; [apply Hwf|]. destruct Hk. by apply Hother.
Qed.

(** X7: an order-creation event with a negative amount, for a user whose
    balance is not negative, is always settled FINISHED, and the balance
    [balance] becomes [balance - amount], which is not below [balance]: the
    conditional update has no lower bound on the amount. *)
Theorem negative_amount_credits hash db_ok m w data u a oid balance :
  Message.body m = Some data →
  well_formed data u a oid →
  inbox w !! dedup_id hash m = None →
  db_ok 0%nat = true → db_ok 1%nat = true → db_ok 2%nat = true →
  accounts w !! u = Some balance → 0 ≤ balance → a < 0 →
  (rabbitmq_consumer hash db_ok m w).2 = inr (Processed "FINISHED") ∧
  accounts (rabbitmq_consumer hash db_ok m w).1 !! u = Some (balance - a) ∧
  balance ≤ balance - a.
Proof.
  intros Hb Hwf Hi H0 H1 H2 Hacc Hpos Hneg.
  rewrite (rabbitmq_consumer_fresh hash db_ok m w data u a oid) by done.
  rewrite (debit_known u a balance w Hacc), bool_decide_eq_true_2 by lia.
  cbn. rewrite lookup_insert_eq. split; [done|]. split; [done|lia].
Qed.

Lemma negative_amount_credits_witness :
  let run := rabbitmq_consumer no_hash all_ok (order_created "1" 11 7 (-5)) race_world in
  run.2 = inr (Processed "FINISHED") ∧ accounts run.1 !! 7 = Some (100 - -5) ∧ 100 ≤ 100 - -5.
Proof.
  apply (negative_amount_credits no_hash all_ok (order_created "1" 11 7 (-5)) race_world
           (<["order_id" := JNum 11]> (<["user_id" := JNum 7]> (<["amount" := JNum (-5)]> ∅)))
           7 (-5) (JNum 11) 100).
  - reflexivity.
  - repeat split; reflexivity.
  - reflexivity.
  - reflexivity.
  - reflexivity.
  - reflexivity.
  - reflexivity.
  - lia.
  - lia.
Defined.

Lemma is_processed_fresh hash db_ok m w :
  let run := rabbitmq_consumer hash db_ok m w in
  if is_processed run.2
  then (∃ row, outbox run.1 = outbox w ++ [row] ∧
               Outbox.routing_key row = "payment.processed" ∧ Outbox.processed row = false) ∧
       inbox w !! dedup_id hash m = None ∧
       inbox run.1 = <[dedup_id hash m := true]> (inbox w)
  else run.1 = w.
Proof.
  intros run. subst run.
  destruct (rabbitmq_consumer_cases hash db_ok m w)
    as [(data & u & a & oid & Hb & Hwf & Hi & H0 & H1 & H2)|[Hw Hno]].
  - rewrite (rabbitmq_consumer_fresh hash db_ok m w data u a oid) by done.
    cbn. split; [|done]. eexists. split; [done|]. done.
  - destruct (rabbitmq_consumer hash db_ok m w) as [w' [e|[|st]]]; cbn in *; try done.
    by destruct (Hno st).
Qed.

(** X8: over any sequence of deliveries, under any faults, the inbox and the
    outbox of the payment service grow together: both grow by exactly the
    number of deliveries that were processed, the old outbox rows stay in
    place, and every new row is an unprocessed "payment.processed" row. *)
Theorem inbox_and_outbox_in_lockstep hash ds w :
  let run := consume hash ds w in
  let n := length (filter (λ r, is_processed r = true) run.2) in
  size (inbox run.1) = (size (inbox w) + n)%nat ∧
  ∃ rows, outbox run.1 = outbox w ++ rows ∧ length rows = n ∧
    Forall (λ r, Outbox.routing_key r = "payment.processed" ∧ Outbox.processed r = false) rows.
Proof.
  revert w. induction ds as [|d ds IH]; intros w.
  { cbn. split; [lia|]. exists []. by rewrite app_nil_r. }
  cbv zeta in *. rewrite consume_cons. cbn [fst snd].
  pose proof (is_processed_fresh hash d.1 d.2 w) as Hd. cbv zeta in Hd.
  destruct (IH (rabbitmq_consumer hash d.1 d.2 w).1) as (IHs & rows & IHo & IHl & IHr).
  rewrite filter_cons.
  destruct (is_processed (rabbitmq_consumer hash d.1 d.2 w).2) eqn:Hp.
  - destruct Hd as ((row & Ho & Hk & Hu) & Hi & Hin).
    rewrite decide_True by done. cbn [length]. split.
    + rewrite IHs, Hin, map_size_insert_None by done. lia.
    + exists (row :: rows). rewrite IHo, Ho, <- app_assoc. split; [done|].
      split; [cbn; lia|]. by constructor.
  - rewrite Hd in *. rewrite decide_False by done. eauto.
Qed.


Lemma consume_app hash ds1 ds2 w :
  (consume hash (ds1 ++ ds2) w).1 = (consume hash ds2 (consume hash ds1 w).1).1.
Proof.
  revert w. induction ds1 as [|d ds1 IH]; intros w; [done|].
  rewrite <- app_comm_cons, !consume_cons. cbn [fst]. apply IH.
Qed.


Lemma handled_is_absorbed hash m w :
  absorbed hash m (rabbitmq_consumer hash all_ok m w).1.
Proof.
  intros db_ok w2 Hsub.
  destruct (rabbitmq_consumer_cases hash db_ok m w2)
    as [(data & u & a & oid & Hb & Hwf & Hi2 & _)|[? _]]; [|done].
  exfalso. destruct (inbox w !! dedup_id hash m) as [p|] eqn:Hi.
  - apply (rabbitmq_consumer_inbox_mono hash all_ok m) in Hi. apply Hsub in Hi. congruence.
  - rewrite (rabbitmq_consumer_fresh hash all_ok m w data u a oid) in Hsub by done.
    specialize (Hsub (dedup_id hash m) true). cbn in Hsub.
    rewrite lookup_insert_eq in Hsub. specialize (Hsub eq_refl). congruence.
Qed.

Lemma absorbed_mono hash m w1 w1' :
  (∀ k p, inbox w1 !! k = Some p → inbox w1' !! k = Some p) →
  absorbed hash m w1 → absorbed hash m w1'.
Proof. intros Hsub Habs db_ok w2 H2. apply Habs. eauto. Qed.

Lemma consumed_are_absorbed hash ms w m :
  m ∈ ms → absorbed hash m (consume hash (pair all_ok <$> ms) w).1.
Proof.
  revert w. induction ms as [|m0 ms IH]; intros w Hm; [by apply not_elem_of_nil in Hm|].
  rewrite fmap_cons, consume_cons. cbn [fst snd].
  apply elem_of_cons in Hm as [->|Hm]; [|by apply IH].
  eapply absorbed_mono; [|apply handled_is_absorbed].
  intros k p. apply consume_inbox_mono.
Qed.

(** X9: effective-once processing.  After a sequence of messages has been
    handled with the store up, delivering any of them again, in any number,
    in any order and under any faults (accepted or rejected the first time),
    leaves the world exactly as it was after the first pass. *)
Theorem redelivery_changes_nothing hash ms (ds : list delivery) w :
  (∀ d, d ∈ ds → d.2 ∈ ms) →
  (consume hash ((pair all_ok <$> ms) ++ ds) w).1
    = (consume hash (pair all_ok <$> ms) w).1.
Proof.
  intros Hds. rewrite consume_app.
  pose proof (consumed_are_absorbed hash ms w) as Habs.
  set (w1 := (consume hash (pair all_ok <$> ms) w).1) in *.
  assert (∀ w2, (∀ k p, inbox w1 !! k = Some p → inbox w2 !! k = Some p) →
            (consume hash ds w2).1 = w2) as Hno; [|by apply Hno].
  induction ds as [|d ds IH]; intros w2 Hsub; [done|].
  rewrite consume_cons. cbn [fst].
  rewrite (Habs d.2 (Hds d ltac:(left)) d.1 w2 Hsub).
  apply IH; [|done]. intros d' Hd'. apply Hds. by right.
Qed.

Lemma redelivery_changes_nothing_witness :
  (consume no_hash ((pair all_ok <$> race_messages)
                      ++ [(all_ok, order_created "3" 13 7 100); (all_ok, order_created "1" 11 7 100)])
     race_world).1
  = (consume no_hash (pair all_ok <$> race_messages) race_world).1.
Proof.
  apply (redelivery_changes_nothing no_hash race_messages
           [(all_ok, order_created "3" 13 7 100); (all_ok, order_created "1" 11 7 100)]
           race_world).
  intros d Hd. apply elem_of_cons in Hd as [->|Hd].
  - right. right. left.
  - apply list_elem_of_singleton in Hd as ->. left.
Defined.

End PaymentExtras.

(** ** The relays, further *)

Module RelayExtras.
Import RelayProofs.


Lemma forallb_accepted_prefix accepts batch :
  forallb (λ r, accepts (to_message r)) batch = true → accepted_prefix accepts batch = batch.
Proof.
  induction batch as [|r batch IH]; cbn; [done|].
  destruct (accepts (to_message r)); cbn; [|done]. intros H. by rewrite IH.
Qed.

Lemma order_relay_effect db_ok accepts w :
  let w' := (OrderService.outbox_processor db_ok accepts w).1 in
  OrderService.outbox w' = relay_rows db_ok accepts (OrderService.outbox w) ∧
  OrderService.exchange w' =
    OrderService.exchange w ++ relay_sent db_ok accepts (OrderService.outbox w) ∧
  OrderService.orders w' = OrderService.orders w ∧
  OrderService.active_connections w' = OrderService.active_connections w ∧
  OrderService.frames w' = OrderService.frames w.
Proof.
  intros w'. subst w'. unfold relay_rows, relay_sent.
  destruct (db_ok 0%nat) eqn:H0.
  - rewrite order_relay_poll by done. cbn.
    destruct (forallb _ _) eqn:Hall; cbn; [|done].
    destruct (db_ok 1%nat); [|done].
    by rewrite (forallb_accepted_prefix _ _ Hall), mark_all_selected.
  - unfold OrderService.outbox_processor, try_except, session_begin, execute,
      mbind, tx_bind. rewrite H0. cbn. by rewrite app_nil_r.
Qed.

Lemma payment_relay_effect db_ok accepts w :
  let w' := (PaymentService.outbox_processor db_ok accepts w).1 in
  PaymentService.outbox w' = relay_rows db_ok accepts (PaymentService.outbox w) ∧
  PaymentService.exchange w' =
    PaymentService.exchange w ++ relay_sent db_ok accepts (PaymentService.outbox w) ∧
  PaymentService.accounts w' = PaymentService.accounts w ∧
  PaymentService.inbox w' = PaymentService.inbox w.
Proof.
  intros w'. subst w'. unfold relay_rows, relay_sent.
  destruct (db_ok 0%nat) eqn:H0.
  - rewrite payment_relay_poll by done. cbn.
    destruct (forallb _ _) eqn:Hall; cbn; [|done].
    destruct (db_ok 1%nat); [|done].
    by rewrite (forallb_accepted_prefix _ _ Hall), mark_all_selected.
  - unfold PaymentService.outbox_processor, try_except, session_begin, execute,
      mbind, tx_bind. rewrite H0. cbn. by rewrite app_nil_r.
Qed.

Lemma mark_selected_same_rows batch rows :
  Forall2 same_row_but_flag rows (mark_selected batch rows).
Proof.
  unfold mark_selected. induction rows as [|r rows IH]; [constructor|].
  rewrite fmap_cons. constructor; [|done].
  case_bool_decide; by destruct r.
Qed.

Lemma relay_rows_same_rows db_ok accepts rows :
  Forall2 same_row_but_flag rows (relay_rows db_ok accepts rows).
Proof.
  unfold relay_rows. destruct (_ && _ && _); [apply mark_selected_same_rows|].
  induction rows; constructor; done.
Qed.

(** X10: a poll of either relay, whatever fails, adds and removes no outbox
    row and changes no key, routing key or payload: it can only turn
    [processed] from false to true.  It only appends to what the broker
    received and it touches no other table. *)
Theorem relay_only_sets_flags db_ok accepts :
  (∀ w : OrderService.World,
     let w' := (OrderService.outbox_processor db_ok accepts w).1 in
     Forall2 same_row_but_flag (OrderService.outbox w) (OrderService.outbox w') ∧
     OrderService.exchange w `prefix_of` OrderService.exchange w' ∧
     OrderService.orders w' = OrderService.orders w) ∧
  (∀ w : PaymentService.World,
     let w' := (PaymentService.outbox_processor db_ok accepts w).1 in
     Forall2 same_row_but_flag (PaymentService.outbox w) (PaymentService.outbox w') ∧
     PaymentService.exchange w `prefix_of` PaymentService.exchange w' ∧
     PaymentService.accounts w' = PaymentService.accounts w ∧
     PaymentService.inbox w' = PaymentService.inbox w).
Proof.
  split; intros w w'; subst w'.
  - destruct (order_relay_effect db_ok accepts w) as (-> & -> & -> & _).
    split; [apply relay_rows_same_rows|]. split; [apply prefix_app_r; done|done].
  - destruct (payment_relay_effect db_ok accepts w) as (-> & -> & -> & ->).
    split; [apply relay_rows_same_rows|]. split; [apply prefix_app_r; done|done].
Qed.

Lemma filter_ext_in {A} (P Q : A → Prop) `{!∀ x, Decision (P x), !∀ x, Decision (Q x)}
    (l : list A) :
  (∀ x, x ∈ l → P x ↔ Q x) → filter P l = filter Q l.
Proof.
  induction l as [|a l IH]; intros Hext; [done|].
  rewrite !filter_cons, IH by (intros x Hx; apply Hext; by right).
  apply decide_ext, Hext. by left.
Qed.

Lemma filter_all {A} (P : A → Prop) `{!∀ x, Decision (P x)} (l : list A) :
  (∀ x, x ∈ l → P x) → filter P l = l.
Proof.
  induction l as [|a l IH]; intros Hall; [done|].
  rewrite filter_cons, decide_True by (apply Hall; by left).
  rewrite IH; [done|]. intros x Hx. apply Hall. by right.
Qed.

Lemma ids_mark_selected batch rows :
  Outbox.id <$> mark_selected batch rows = Outbox.id <$> rows.
Proof.
  unfold mark_selected. rewrite <- list_fmap_compose. apply list_fmap_ext.
  intros _ r _. cbn. by case_bool_decide.
Qed.

Lemma unprocessed_mark_selected batch rows :
  unprocessed (mark_selected batch rows)
    = filter (λ r, Outbox.id r ∉ Outbox.id <$> batch) (unprocessed rows).
Proof.
  unfold unprocessed, mark_selected. induction rows as [|r rows IH]; [done|].
  rewrite fmap_cons, !filter_cons, IH.
  destruct (decide (Outbox.id r ∈ Outbox.id <$> batch)) as [Hin|Hout].
  - rewrite bool_decide_eq_true_2 by done. rewrite decide_False by done.
    destruct (decide (Outbox.processed r = false)); [|done].
    by rewrite filter_cons, decide_False by (by intros ?).
  - rewrite bool_decide_eq_false_2 by done.
    destruct (decide (Outbox.processed r = false)); [|done].
    by rewrite filter_cons, decide_True by done.
Qed.

Lemma filter_not_in_take k (l : list Outbox.t) :
  NoDup (Outbox.id <$> l) →
  filter (λ r, Outbox.id r ∉ Outbox.id <$> take k l) l = drop k l.
Proof.
  revert k. induction l as [|x l IH]; intros k Hnd; [by destruct k|].
  rewrite fmap_cons in Hnd. apply NoDup_cons in Hnd as [Hx Hnd].
  destruct k as [|k].
  - cbn [take drop]. apply filter_all. intros r _. rewrite fmap_nil. apply not_elem_of_nil.
  - cbn [take drop]. rewrite filter_cons, decide_False; cycle 1.
    { intros Hno. apply Hno. rewrite fmap_cons. by left. }
    rewrite <- (IH k Hnd). apply filter_ext_in. intros r Hr.
    rewrite fmap_cons, not_elem_of_cons. split; [tauto|]. intros Hr'. split; [|done].
    intros Heq. apply Hx. rewrite <- Heq. by apply list_elem_of_fmap_2.
Qed.

Lemma NoDup_ids_unprocessed rows :
  NoDup (Outbox.id <$> rows) → NoDup (Outbox.id <$> unprocessed rows).
Proof.
  unfold unprocessed. induction rows as [|r rows IH]; [done|].
  rewrite fmap_cons, filter_cons. intros [Hr Hnd]%NoDup_cons.
  destruct (decide _); [|by apply IH].
  rewrite fmap_cons. apply NoDup_cons. split; [|by apply IH].
  intros (r' & Heq & Hr')%list_elem_of_fmap. apply Hr. rewrite Heq.
  apply list_elem_of_fmap_2. by apply list_elem_of_filter in Hr' as [_ ?].
Qed.

(** One poll with the store and the broker up, on a table with unique keys:
    the first ten unprocessed rows are sent and are the ones that leave the
    unprocessed rows. *)
Lemma relay_step rows :
  NoDup (Outbox.id <$> rows) →
  relay_sent all_ok (λ _, true) rows = to_message <$> take 10 (unprocessed rows) ∧
  unprocessed (relay_rows all_ok (λ _, true) rows) = drop 10 (unprocessed rows) ∧
  NoDup (Outbox.id <$> relay_rows all_ok (λ _, true) rows).
Proof.
  intros Hnd. unfold relay_sent, relay_rows, select_unprocessed. cbn [all_ok andb].
  fold (unprocessed rows).
  assert (∀ l : list Outbox.t, forallb (λ _, true) l = true) as Hall
    by (induction l; done).
  rewrite Hall, andb_true_r. cbn [andb all_ok].
  rewrite ids_mark_selected, unprocessed_mark_selected.
  rewrite filter_not_in_take by by apply NoDup_ids_unprocessed.
  split; [|done]. f_equal. apply forallb_accepted_prefix, Hall.
Qed.

(** X11: with the store and the broker up and the keys of the outbox unique,
    n polls of either relay publish exactly the first 10 n unprocessed rows,
    each once and in table order, and leave exactly the remaining rows
    unprocessed (so an outbox with at most 10 n unprocessed rows is drained
    by n polls, and a poll of a drained outbox publishes nothing). *)
Theorem relay_publishes_each_row_once n :
  (∀ w : OrderService.World,
     NoDup (Outbox.id <$> OrderService.outbox w) →
     let poll := λ w, (OrderService.outbox_processor all_ok (λ _, true) w).1 in
     OrderService.exchange (Nat.iter n poll w) =
       OrderService.exchange w ++
       (to_message <$> take (10 * n) (unprocessed (OrderService.outbox w))) ∧
     unprocessed (OrderService.outbox (Nat.iter n poll w)) =
       drop (10 * n) (unprocessed (OrderService.outbox w))) ∧
  (∀ w : PaymentService.World,
     NoDup (Outbox.id <$> PaymentService.outbox w) →
     let poll := λ w, (PaymentService.outbox_processor all_ok (λ _, true) w).1 in
     PaymentService.exchange (Nat.iter n poll w) =
       PaymentService.exchange w ++
       (to_message <$> take (10 * n) (unprocessed (PaymentService.outbox w))) ∧
     unprocessed (PaymentService.outbox (Nat.iter n poll w)) =
       drop (10 * n) (unprocessed (PaymentService.outbox w))).
Proof.
  split; intros w Hnd poll.
  - assert (NoDup (Outbox.id <$> OrderService.outbox (Nat.iter n poll w)) ∧
            OrderService.exchange (Nat.iter n poll w) =
              OrderService.exchange w ++
              (to_message <$> take (10 * n) (unprocessed (OrderService.outbox w))) ∧
            unprocessed (OrderService.outbox (Nat.iter n poll w)) =
              drop (10 * n) (unprocessed (OrderService.outbox w))) as (_ & ? & ?); [|done].
    induction n as [|n (IHnd & IHx & IHu)].
    { cbn. by rewrite app_nil_r. }
    change (Nat.iter (S n) poll w) with (poll (Nat.iter n poll w)).
    set (wn := Nat.iter n poll w) in *. unfold poll. cbv beta.
    destruct (order_relay_effect all_ok (λ _, true) wn) as (-> & -> & _).
    destruct (relay_step _ IHnd) as (-> & -> & Hnd').
    split; [done|]. rewrite IHx, IHu, drop_drop, <- app_assoc, <- fmap_app, take_take_drop.
    by replace (10 * S n)%nat with (10 * n + 10)%nat by lia.
  - assert (NoDup (Outbox.id <$> PaymentService.outbox (Nat.iter n poll w)) ∧
            PaymentService.exchange (Nat.iter n poll w) =
              PaymentService.exchange w ++
              (to_message <$> take (10 * n) (unprocessed (PaymentService.outbox w))) ∧
            unprocessed (PaymentService.outbox (Nat.iter n poll w)) =
              drop (10 * n) (unprocessed (PaymentService.outbox w))) as (_ & ? & ?); [|done].
    induction n as [|n (IHnd & IHx & IHu)].
    { cbn. by rewrite app_nil_r. }
    change (Nat.iter (S n) poll w) with (poll (Nat.iter n poll w)).
    set (wn := Nat.iter n poll w) in *. unfold poll. cbv beta.
    destruct (payment_relay_effect all_ok (λ _, true) wn) as (-> & -> & _).
    destruct (relay_step _ IHnd) as (-> & -> & Hnd').
    split; [done|]. rewrite IHx, IHu, drop_drop, <- app_assoc, <- fmap_app, take_take_drop.
    by replace (10 * S n)%nat with (10 * n + 10)%nat by lia.
Qed.

Lemma relay_publishes_each_row_once_witness :
  let poll := λ w, (OrderService.outbox_processor all_ok (λ _, true) w).1 in
  OrderService.exchange (Nat.iter 1 poll OrderService.relay_world) =
    [to_message (Outbox.mk 2 "order.created" (OrderService.order_created_payload 2 7 100) false);
     to_message (Outbox.mk 3 "order.created" (OrderService.order_created_payload 3 7 100) false)] ∧
  unprocessed (OrderService.outbox (Nat.iter 1 poll OrderService.relay_world)) = [].
Proof.
  destruct (relay_publishes_each_row_once 1) as [Horder _].
  destruct (Horder OrderService.relay_world) as [Hx Hu].
  - apply (bool_decide_unpack _). vm_compute. exact I.
  - cbv zeta in *. rewrite Hx, Hu. split; reflexivity.
Defined.

Lemma relay_after_refusal accepts rows :
  Exists (λ r, accepts (to_message r) = false) (select_unprocessed rows) →
  relay_rows all_ok accepts rows = rows ∧
  relay_sent all_ok accepts rows
    = to_message <$> accepted_prefix accepts (select_unprocessed rows).
Proof.
  intros Hsome. unfold relay_rows, relay_sent. cbn [all_ok andb].
  by rewrite (forallb_accepts_some _ _ Hsome).
Qed.

Lemma relay_all_accepted rows :
  relay_rows all_ok (λ _, true) rows = mark_selected (select_unprocessed rows) rows ∧
  relay_sent all_ok (λ _, true) rows = to_message <$> select_unprocessed rows.
Proof.
  assert (∀ l : list Outbox.t, forallb (λ _, true) l = true) as Hall
    by (induction l; done).
  unfold relay_rows, relay_sent. cbn [all_ok andb]. rewrite Hall. cbn [andb].
  split; [done|]. f_equal. apply forallb_accepted_prefix, Hall.
Qed.

(** X12: at-least-once publication.  When the broker refuses a message of a
    batch, the rows before it have been published but not marked; the next
    poll, with the broker up, publishes the whole batch, so those rows are
    published twice, with identical messages (same message id), and only
    then is the batch marked. *)
Theorem refused_batch_is_published_again accepts :
  (∀ w : OrderService.World,
     let batch := select_unprocessed (OrderService.outbox w) in
     Exists (λ r, accepts (to_message r) = false) batch →
     let w1 := (OrderService.outbox_processor all_ok accepts w).1 in
     let w2 := (OrderService.outbox_processor all_ok (λ _, true) w1).1 in
     OrderService.exchange w2 =
       OrderService.exchange w ++ (to_message <$> accepted_prefix accepts batch)
         ++ (to_message <$> batch) ∧
     OrderService.outbox w2 = mark_selected batch (OrderService.outbox w)) ∧
  (∀ w : PaymentService.World,
     let batch := select_unprocessed (PaymentService.outbox w) in
     Exists (λ r, accepts (to_message r) = false) batch →
     let w1 := (PaymentService.outbox_processor all_ok accepts w).1 in
     let w2 := (PaymentService.outbox_processor all_ok (λ _, true) w1).1 in
     PaymentService.exchange w2 =
       PaymentService.exchange w ++ (to_message <$> accepted_prefix accepts batch)
         ++ (to_message <$> batch) ∧
     PaymentService.outbox w2 = mark_selected batch (PaymentService.outbox w)).
Proof.
  split; intros w batch Hsome w1 w2; subst w1 w2 batch.
  - destruct (order_relay_effect all_ok (λ _, true)
                (OrderService.outbox_processor all_ok accepts w).1) as (-> & -> & _).
    destruct (order_relay_effect all_ok accepts w) as (-> & -> & _).
    destruct (relay_after_refusal accepts _ Hsome) as [-> ->].
    destruct (relay_all_accepted (OrderService.outbox w)) as [-> ->].
    by rewrite <- app_assoc.
  - destruct (payment_relay_effect all_ok (λ _, true)
                (PaymentService.outbox_processor all_ok accepts w).1) as (-> & -> & _).
    destruct (payment_relay_effect all_ok accepts w) as (-> & -> & _).
    destruct (relay_after_refusal accepts _ Hsome) as [-> ->].
    destruct (relay_all_accepted (PaymentService.outbox w)) as [-> ->].
    by rewrite <- app_assoc.
Qed.

Lemma refused_batch_is_published_again_witness :
  let w1 := (PaymentService.outbox_processor all_ok (refuses "3") PaymentService.relay_world).1 in
  let w2 := (PaymentService.outbox_processor all_ok (λ _, true) w1).1 in
  Message.message_id <$> PaymentService.exchange w2 = [Some "2"; Some "2"; Some "3"] ∧
  Outbox.processed <$> PaymentService.outbox w2 = [true; true; true].
Proof.
  destruct (refused_batch_is_published_again (refuses "3")) as [_ Hpayment].
  destruct (Hpayment PaymentService.relay_world) as [Hx Hrows].
  - apply Exists_cons_tl, Exists_cons_hd. reflexivity.
  - cbv zeta in *. rewrite Hx, Hrows. split; vm_compute; reflexivity.
Defined.

End RelayExtras.

(** ** The order service, further *)

Module OrderExtras.
Import OrderService OrderProofs.


#[local] Instance newer_first_total : Total newer_first.
Proof. intros a b. unfold newer_first. lia. Qed.

#[local] Instance newer_first_trans : Transitive newer_first.
Proof. intros a b c. unfold newer_first. lia. Qed.

(** X13: the order listing, with the store up, returns every order exactly
    once (a permutation of the table), ordered by decreasing key, and leaves
    the world alone; with the store down it raises. *)
Theorem list_orders_newest_first db_ok w :
  (db_ok 0%nat = true →
     ∃ l, list_orders db_ok w = (w, inr l) ∧ l ≡ₚ orders w ∧ StronglySorted newer_first l) ∧
  (db_ok 0%nat = false → list_orders db_ok w = (w, inl DBAPIError)).
Proof.
  unfold list_orders, execute. split; intros ->; [|done].
  eexists. split; [done|]. split.
  - apply merge_sort_Permutation.
  - apply (StronglySorted_merge_sort _).
Qed.

(** X14: an order that has just been created, with status "NEW", is the
    first element of the next order listing, followed by the orders that
    existed before. *)
Theorem new_order_is_listed_first req w :
  let oid := next_order_id (orders w) in
  ∃ rest,
    (list_orders all_ok (create_order all_ok req w).1).2 =
      inr (Order.mk oid (req_user_id req) (req_description req) (req_amount req) "NEW"
             :: rest) ∧
    rest ≡ₚ orders w.
Proof.
  intros oid. rewrite create_order_eq. unfold list_orders, execute. cbn.
  fold oid. set (new := Order.mk oid _ _ _ _).
  pose proof (merge_sort_Permutation newer_first (orders w ++ [new])) as Hperm.
  pose proof (StronglySorted_merge_sort newer_first (orders w ++ [new])) as Hsorted.
  destruct (merge_sort newer_first (orders w ++ [new])) as [|h rest] eqn:Hl.
  { apply Permutation_nil_l in Hperm. by destruct (orders w). }
  assert (h = new) as ->.
  { assert (h ∈ orders w ++ [new]) as Hh by (rewrite <- Hperm; left).
    apply elem_of_app in Hh as [Hh|Hh]; [|by apply list_elem_of_singleton in Hh].
    exfalso. apply next_order_id_fresh in Hh. fold oid in Hh.
    assert (new ∈ h :: rest) as Hnew.
    { rewrite Hperm. apply elem_of_app. right. by left. }
    apply elem_of_cons in Hnew as [Heq|Hnew].
    - subst h. cbn in Hh. lia.
    - apply StronglySorted_inv in Hsorted as [_ Hall].
      rewrite Forall_forall in Hall. specialize (Hall _ Hnew).
      unfold newer_first in Hall. cbn in Hall. lia. }
  exists rest. split; [done|].
  apply (Permutation_cons_inv (a := new)). rewrite Hperm.
  by rewrite (Permutation_app_comm (orders w) [new]).
Qed.

(** *** The connection manager *)

Lemma list_remove_first_absent x l : x ∉ l → list_remove_first x l = l.
Proof.
  induction l as [|y l IH]; [done|]. intros [Hne Hl]%not_elem_of_cons.
  cbn. rewrite bool_decide_eq_false_2 by done. by rewrite IH.
Qed.

Lemma list_remove_first_snoc x l : x ∉ l → list_remove_first x (l ++ [x]) = l.
Proof.
  induction l as [|y l IH]; intros Hx.
  - cbn. by rewrite bool_decide_eq_true_2.
  - apply not_elem_of_cons in Hx as [Hne Hl]. cbn.
    rewrite bool_decide_eq_false_2 by done. by rewrite IH.
Qed.

Lemma order_world_eta w :
  mkWorld (orders w) (outbox w) (exchange w) (active_connections w) (frames w) = w.
Proof. by destruct w. Qed.

(** X15: a socket that is new for the user is appended to the user's
    sockets by [connect] (the list is created when the user had none) and
    the sockets of other users are untouched; [disconnect] then restores the
    sockets of every user, but the user's key stays in the manager, with an
    empty list when the user had no other socket. *)
Theorem connect_then_disconnect websocket user_id w :
  websocket ∉ connections_of user_id w →
  let w1 := (connect websocket user_id w).1 in
  let w2 := (disconnect websocket user_id w1).1 in
  connections_of user_id w1 = connections_of user_id w ++ [websocket] ∧
  (∀ u, u ≠ user_id → connections_of u w1 = connections_of u w) ∧
  (∀ u, connections_of u w2 = connections_of u w) ∧
  active_connections w2 !! user_id = Some (connections_of user_id w).
Proof.
  intros Hnew w1 w2. subst w1 w2.
  unfold connect, disconnect, modify, set_active_connections, connections_of in *.
  cbn [fst active_connections]. rewrite !lookup_insert_eq. cbv beta iota. cbn [default].
  rewrite insert_insert_eq, list_remove_first_snoc by done.
  split; [done|]. split.
  - intros u Hu. by rewrite lookup_insert_ne.
  - split; [|done]. intros u. destruct (decide (u = user_id)) as [->|Hu].
    + by rewrite lookup_insert_eq.
    + by rewrite lookup_insert_ne.
Qed.

Lemma connect_then_disconnect_witness :
  connections_of 7 (connect 3%nat 7 hub_two_sockets).1 = [1%nat; 2%nat; 3%nat] ∧
  connections_of 7 (disconnect 3%nat 7 (connect 3%nat 7 hub_two_sockets).1).1
    = [1%nat; 2%nat].
Proof.
  destruct (connect_then_disconnect 3%nat 7 hub_two_sockets) as (H1 & _ & H2 & _).
  - apply (bool_decide_unpack _). vm_compute. exact I.
  - split; [exact H1|exact (H2 7)].
Defined.

(** X16: [disconnect] with a socket that is not registered for the user
    (unknown user included) changes nothing and does not raise. *)
Theorem disconnect_unknown_is_noop websocket user_id w :
  websocket ∉ connections_of user_id w →
  disconnect websocket user_id w = (w, inr tt).
Proof.
  intros Hnot. unfold disconnect, modify, set_active_connections, connections_of in *.
  destruct (active_connections w !! user_id) as [l|] eqn:Hl; cbn in *.
  - rewrite list_remove_first_absent by done. rewrite insert_id by done. by rewrite order_world_eta.
  - by rewrite order_world_eta.
Qed.

Lemma disconnect_unknown_is_noop_witness :
  disconnect 3%nat 7 hub_two_sockets = (hub_two_sockets, inr tt) ∧
  disconnect 1%nat 8 hub_two_sockets = (hub_two_sockets, inr tt).
Proof.
  split.
  - apply (disconnect_unknown_is_noop 3%nat 7 hub_two_sockets).
    apply (bool_decide_unpack _). vm_compute. exact I.
  - apply (disconnect_unknown_is_noop 1%nat 8 hub_two_sockets).
    apply (bool_decide_unpack _). vm_compute. exact I.
Defined.

(** X17: [disconnect] removes the first registration of the socket from the
    user's list and keeps the order of the others; the sockets of other
    users are untouched. *)
Theorem disconnect_removes_one_registration websocket user_id w before after :
  connections_of user_id w = before ++ websocket :: after →
  websocket ∉ before →
  connections_of user_id (disconnect websocket user_id w).1 = before ++ after ∧
  ∀ u, u ≠ user_id →
    connections_of u (disconnect websocket user_id w).1 = connections_of u w.
Proof.
  intros Hl Hb. unfold disconnect, modify, set_active_connections, connections_of in *.
  destruct (active_connections w !! user_id) as [l|] eqn:Hacc;
    cbn [fst active_connections from_option id] in *.
  - subst l. rewrite lookup_insert_eq. cbn [from_option id]. split.
    + clear Hacc. induction before as [|x before IH]; cbn.
      * by rewrite bool_decide_eq_true_2.
      * apply not_elem_of_cons in Hb as [Hne Hb].
        rewrite bool_decide_eq_false_2 by done. by rewrite IH.
    + intros u Hu. by rewrite lookup_insert_ne.
  - by destruct before.
Qed.

Lemma disconnect_removes_one_registration_witness :
  connections_of 7 (disconnect 2%nat 7 hub_two_sockets).1 = [1%nat] ++ [].
Proof.
  apply (disconnect_removes_one_registration 2%nat 7 hub_two_sockets [1%nat] []).
  - reflexivity.
  - apply (bool_decide_unpack _). vm_compute. exact I.
Defined.

(** *** The status consumer *)

Lemma payment_result_consumer_eq db_ok ws_ok m w data k st u :
  Message.body m = Some data →
  data !! "order_id" = Some (JNum k) → data !! "status" = Some (JStr st) →
  data !! "user_id" = Some (JNum u) →
  payment_result_consumer db_ok ws_ok m w =
    if db_ok 0%nat && db_ok 1%nat
    then (mkWorld (orders (update_status k st w).1) (outbox w) (exchange w)
            (active_connections w)
            (frames w ++ ((λ c, (c, data)) <$> sent_before_failure ws_ok (connections_of u w))),
          if forallb ws_ok (connections_of u w) then inr tt else inl WebSocketError)
    else (w, inl DBAPIError).
Proof.
  intros Hb Ho Hs Hu.
  unfold payment_result_consumer, getitem, mbind, tx_bind, mret, tx_ret, session_begin,
    as_number, as_text, execute, rollback, world_store.
  rewrite Hb, Ho, Hs, Hu.
  destruct (db_ok 0%nat); cbn; [|by rewrite order_world_eta].
  destruct (db_ok 1%nat); cbn; [|by rewrite order_world_eta].
  by rewrite send_to_user_eq.
Qed.

Lemma update_status_other k st (rows : list Order.t) :
  (∀ o, o ∈ rows → Order.id o ≠ k) →
  (λ r, if bool_decide (Order.id r = k) then Order.set_status st r else r) <$> rows = rows.
Proof.
  intros Hk. rewrite <- (list_fmap_id rows) at 2. apply list_fmap_ext.
  intros _ o Ho%list_elem_of_lookup_2. by rewrite bool_decide_eq_false_2 by by apply Hk.
Qed.

(** X18: for a well-formed payment result, with the store up, the status
    update is committed whether or not the push succeeds: the orders with the
    key of the result get its status (none, when no order has that key, and
    the user is notified all the same), the frames go to the user's sockets
    up to the first that fails, and the handler raises exactly when a socket
    fails.  When the update or the commit fails nothing is pushed and the
    world is as it was. *)
Theorem status_is_committed_before_the_push db_ok ws_ok m w data k st u :
  Message.body m = Some data →
  data !! "order_id" = Some (JNum k) → data !! "status" = Some (JStr st) →
  data !! "user_id" = Some (JNum u) →
  let run := payment_result_consumer db_ok ws_ok m w in
  (db_ok 0%nat = true → db_ok 1%nat = true →
     orders run.1 = orders (update_status k st w).1 ∧
     ((∀ o, o ∈ orders w → Order.id o ≠ k) → orders run.1 = orders w) ∧
     frames run.1 =
       frames w ++ ((λ c, (c, data)) <$> sent_before_failure ws_ok (connections_of u w)) ∧
     run.2 = if forallb ws_ok (connections_of u w) then inr tt else inl WebSocketError) ∧
  (db_ok 0%nat = false ∨ db_ok 1%nat = false → run = (w, inl DBAPIError)).
Proof.
  intros Hb Ho Hs Hu run. subst run.
  rewrite (payment_result_consumer_eq db_ok ws_ok m w data k st u) by done. split.
  - intros -> ->. cbn. split; [done|]. split; [|done].
    intros Hk. by apply update_status_other.
  - intros [-> | ->]; by rewrite ?andb_false_r.
Qed.

Lemma status_is_committed_before_the_push_witness :
  let w := mkWorld [Order.mk 1 7 "book" 100 "NEW"] [] [] {[ 7 := [1%nat; 2%nat] ]} [] in
  let run := payment_result_consumer all_ok first_socket_closed repeated_finish w in
  orders run.1 = [Order.mk 1 7 "book" 100 "FINISHED"] ∧ run.2 = inl WebSocketError.
Proof.
  intros w run.
  destruct (status_is_committed_before_the_push all_ok first_socket_closed repeated_finish w
              (payment_processed 1 "FINISHED" 7) 1 "FINISHED" 7) as [Hup _].
  - reflexivity.
  - reflexivity.
  - reflexivity.
  - reflexivity.
  - destruct Hup as (Ho & _ & _ & Hr); [reflexivity|reflexivity|].
    split; [exact Ho|exact Hr].
Defined.

(** X19: a payment result whose body does not decode, or which lacks
    "order_id", "status" or "user_id" (looked up in this order), raises (a
    KeyError for the first missing key) before any update or push: the world
    is as it was. *)
Theorem payment_result_consumer_rejects_malformed db_ok ws_ok m w :
  let run := payment_result_consumer db_ok ws_ok m w in
  (Message.body m = None → run = (w, inl JSONDecodeError)) ∧
  (∀ data, Message.body m = Some data →
     (data !! "order_id" = None → run = (w, inl (KeyError "order_id"))) ∧
     (is_Some (data !! "order_id") → data !! "status" = None →
        run = (w, inl (KeyError "status"))) ∧
     (is_Some (data !! "order_id") → is_Some (data !! "status") →
        data !! "user_id" = None → run = (w, inl (KeyError "user_id")))).
Proof.
  intros run. subst run. unfold payment_result_consumer, getitem, mbind, tx_bind, raise.
  split.
  - by intros ->.
  - intros data ->. repeat split.
    + by intros ->.
    + by intros [? ->] ->.
    + by intros [? ->] [? ->] ->.
Qed.

Lemma update_status_same_orders k st w :
  Forall2 same_order_but_status (orders w) (orders (update_status k st w).1).
Proof.
  cbn. induction (orders w) as [|o rows IH]; [constructor|].
  rewrite fmap_cons. constructor; [|done]. by case_bool_decide.
Qed.

Lemma payment_result_consumer_effect db_ok ws_ok m w :
  let w' := (payment_result_consumer db_ok ws_ok m w).1 in
  Forall2 same_order_but_status (orders w) (orders w') ∧
  outbox w' = outbox w ∧ exchange w' = exchange w ∧
  active_connections w' = active_connections w ∧
  frames w `prefix_of` frames w'.
Proof.
  intros w'. subst w'.
  assert (Forall2 same_order_but_status (orders w) (orders w)) as Hrefl.
  { induction (orders w); constructor; done. }
  unfold payment_result_consumer.
  destruct (Message.body m) as [data|] eqn:Hb; [|done].
  unfold getitem, mbind, tx_bind, mret, tx_ret, raise, session_begin, as_number, as_text,
    execute, rollback, world_store.
  destruct (data !! "order_id") as [[k|?]|] eqn:Ho; cbn;
  destruct (data !! "status") as [[?|st]|] eqn:Hs; cbn;
  destruct (data !! "user_id") as [[uid|?]|] eqn:Hu; cbn; try done.
  - destruct (db_ok 0%nat); [|done]. cbn. destruct (db_ok 1%nat); [|done].
    rewrite send_to_user_eq. cbn. split; [apply (update_status_same_orders k st w)|].
    split; [done|]. split; [done|]. split; [done|]. by apply prefix_app_r.
  - destruct (db_ok 0%nat); [|done]. cbn. destruct (db_ok 1%nat); [|done].
    cbn. split; [apply (update_status_same_orders k st w)|]. done.
Qed.

(** X20: handling a payment result, whatever the message and whatever
    fails, adds and removes no order and changes no key, user, description or
    amount; the outbox, what the broker received and the manager are
    untouched, and frames are only appended. *)
Theorem status_consumer_only_sets_statuses db_ok ws_ok m w :
  let w' := (payment_result_consumer db_ok ws_ok m w).1 in
  Forall2 same_order_but_status (orders w) (orders w') ∧
  outbox w' = outbox w ∧ exchange w' = exchange w ∧
  active_connections w' = active_connections w ∧
  frames w `prefix_of` frames w'.
Proof.
  intros w'. subst w'.
  destruct (payment_result_consumer_effect db_ok ws_ok m w) as (Ho & Hb & Hx & Hc & Hf).
  repeat split; assumption.
Qed.


Lemma payment_result_consumer_step ws_ok m w :
  orders (payment_result_consumer all_ok ws_ok m w).1 =
    match result_for m with
    | Some (k, st) => orders (update_status k st w).1
    | None => orders w
    end.
Proof.
  unfold result_for, payment_result_consumer.
  destruct (Message.body m) as [data|] eqn:Hb; [|done].
  unfold getitem, mbind, tx_bind, mret, tx_ret, raise, session_begin, as_number, as_text,
    execute, rollback, world_store.
  destruct (data !! "order_id") as [[k|?]|] eqn:Ho; cbn;
  destruct (data !! "status") as [[?|st]|] eqn:Hs; cbn;
  destruct (data !! "user_id") as [[uid|?]|] eqn:Hu; cbn; try done.
  by rewrite send_to_user_eq.
Qed.

(** X21: last writer wins.  After a sequence of payment results handled
    with the store up, the status of each order is the status of the LAST
    result in the sequence that names the order and has a text status and a
    "user_id", and the status it had before when there is none. *)
Theorem last_result_wins ws_ok ms w :
  orders (consume_results ((λ m, (all_ok, ws_ok, m)) <$> ms) w) =
    (λ o, match last_status (Order.id o) ms with
          | Some st => Order.set_status st o
          | None => o
          end) <$> orders w.
Proof.
  revert w. induction ms as [|m ms IH]; intros w.
  { cbn. by rewrite list_fmap_id. }
  rewrite fmap_cons. cbn [consume_results foldl fst snd]. fold (consume_results
    ((λ m, (all_ok, ws_ok, m)) <$> ms) (payment_result_consumer all_ok ws_ok m w).1).
  rewrite IH, payment_result_consumer_step. cbn [last_status].
  destruct (result_for m) as [[k st]|].
  - cbn. rewrite <- list_fmap_compose. apply list_fmap_ext. intros _ o _. cbn.
    case_bool_decide as Hk.
    + rewrite bool_decide_eq_true_2 by done. cbn. by destruct (last_status _ ms).
    + rewrite bool_decide_eq_false_2 by done. by destruct (last_status _ ms).
  - apply list_fmap_ext. intros _ o _. by destruct (last_status _ ms).
Qed.

End OrderExtras.

(** ** The two services together *)

Module ShopProofs.
Import RelayProofs RelayExtras OrderProofs OrderExtras.


(** *** Every order is announced *)

Lemma announces_same_row o r r' : announces o r → same_row_but_flag r r' → announces o r'.
Proof. intros [Hk Hp] (_ & Hk' & Hp' & _). split; congruence. Qed.

Lemma announces_same_order o o' r : announces o r → same_order_but_status o o' → announces o' r.
Proof. intros [Hk Hp] (Hi & Hu & _ & Ha). split; [done|]. by rewrite Hi, Hu, Ha. Qed.

(** X22: the transactional outbox invariant of the order service: when
    the orders and the outbox rows correspond one to one, each row being an
    "order.created" row whose payload is the key, user and amount of its
    order, they still do after an order creation, a relay poll and the
    handling of a payment result, whatever fails in them. *)
Theorem every_order_stays_announced db_ok accepts ws_ok req m w :
  every_order_announced w →
  every_order_announced (OrderService.create_order db_ok req w).1 ∧
  every_order_announced (OrderService.outbox_processor db_ok accepts w).1 ∧
  every_order_announced (OrderService.payment_result_consumer db_ok ws_ok m w).1.
Proof.
  unfold every_order_announced. intros Hinv. split; [|split].
  - rewrite create_order_eq. cbv zeta. destruct (_ && _ && _); [|done]. cbn.
    apply Forall2_app; [done|]. by repeat constructor.
  - destruct (order_relay_effect db_ok accepts w) as (-> & _ & -> & _).
    pose proof (relay_rows_same_rows db_ok accepts (OrderService.outbox w)) as Hrows.
    revert Hrows. generalize (relay_rows db_ok accepts (OrderService.outbox w)).
    induction Hinv as [|o r os rs Ha _ IH]; intros rs' Hrows; inv Hrows; constructor.
    + by eapply announces_same_row.
    + by apply IH.
  - destruct (payment_result_consumer_effect db_ok ws_ok m w) as (Horders & -> & _).
    revert Horders. generalize (OrderService.orders
      (OrderService.payment_result_consumer db_ok ws_ok m w).1).
    induction Hinv as [|o r os rs Ha _ IH]; intros os' Horders; inv Horders; constructor.
    + by eapply announces_same_order.
    + by apply IH.
Qed.

Lemma every_order_stays_announced_witness :
  every_order_announced
    (OrderService.create_order all_ok (OrderService.mkOrderReq 7 "book" 100)
       OrderService.empty_world).1.
Proof.
  apply (every_order_stays_announced all_ok (λ _, true) (λ _, true)
           (OrderService.mkOrderReq 7 "book" 100) OrderService.repeated_finish
           OrderService.empty_world).
  constructor.
Defined.

(** *** One order from the request to its settlement *)

Lemma select_unprocessed_last rows r :
  Forall (λ r, Outbox.processed r = true) rows → Outbox.processed r = false →
  select_unprocessed (rows ++ [r]) = [r].
Proof.
  intros Hall Hr. unfold select_unprocessed. rewrite filter_app.
  replace (filter (λ r, Outbox.processed r = false) rows) with (@nil Outbox.t).
  - rewrite filter_cons, decide_True by done. done.
  - symmetry. induction Hall as [|x rows Hx _ IH]; [done|].
    rewrite filter_cons, decide_False by congruence. done.
Qed.

Lemma mark_selected_last rows r :
  Forall (λ r, Outbox.processed r = true) rows →
  Forall (λ r, Outbox.processed r = true) (mark_selected [r] (rows ++ [r])).
Proof.
  intros Hall. unfold mark_selected. rewrite fmap_app. apply Forall_app. split.
  - induction Hall as [|x rows Hx _ IH]; [constructor|].
    rewrite fmap_cons. constructor; [|done]. by case_bool_decide.
  - repeat constructor. rewrite bool_decide_eq_true_2; [done|]. rewrite list_fmap_singleton.
    by apply list_elem_of_singleton.
Qed.

Lemma bound_to_singleton key m :
  Message.routing_key m = key → Shop.bound_to key [m] = [m].
Proof. intros Hk. unfold Shop.bound_to. by rewrite filter_cons, decide_True. Qed.

(** X23: one order end to end.  With both outboxes drained and the message
    identity of the new outbox row not in the inbox, creating an order,
    polling the order relay, consuming the published message in the payment
    service, polling the payment relay and consuming the published result in
    the order service leaves the new order FINISHED when the user's account
    exists with a balance of at least the amount, in which case the balance
    is reduced by the amount, and CANCELLED with the accounts unchanged
    otherwise; the result is pushed to the user's sockets and both outboxes
    are drained again. *)
Theorem placed_order_is_settled hash ws_ok req wo wp :
  Forall (λ r, Outbox.processed r = true) (OrderService.outbox wo) →
  Forall (λ r, Outbox.processed r = true) (PaymentService.outbox wp) →
  PaymentService.inbox wp !! pretty (next_outbox_id (OrderService.outbox wo)) = None →
  let oid := OrderService.next_order_id (OrderService.orders wo) in
  let u := OrderService.req_user_id req in
  let a := OrderService.req_amount req in
  let paid :=
    match PaymentService.accounts wp !! u with
    | Some balance => bool_decide (a ≤ balance)
    | None => false
    end in
  let status := if paid then "FINISHED" else "CANCELLED" in
  let wo' := (Shop.place_order hash ws_ok req wo wp).1 in
  let wp' := (Shop.place_order hash ws_ok req wo wp).2 in
  OrderService.orders wo' =
    OrderService.orders wo ++ [Order.mk oid u (OrderService.req_description req) a status] ∧
  PaymentService.accounts wp' =
    (if paid then alter (λ balance, balance - a) u (PaymentService.accounts wp)
     else PaymentService.accounts wp) ∧
  OrderService.frames wo' =
    OrderService.frames wo ++
    ((λ c, (c, PaymentService.response_payload (JNum oid) status (JNum u)))
       <$> OrderService.sent_before_failure ws_ok (OrderService.connections_of u wo)) ∧
  Forall (λ r, Outbox.processed r = true) (OrderService.outbox wo') ∧
  Forall (λ r, Outbox.processed r = true) (PaymentService.outbox wp').
Proof.
  intros Hwo Hwp Hfresh oid u a paid status wo' wp'. subst wo' wp'.
  unfold Shop.place_order. cbv zeta.
  (* the order and its outbox row *)
  set (new := Order.mk oid u (OrderService.req_description req) a "NEW").
  set (row := Outbox.mk (next_outbox_id (OrderService.outbox wo)) "order.created"
                (OrderService.order_created_payload oid u a) false).
  assert ((OrderService.create_order all_ok req wo).1 =
          OrderService.mkWorld (OrderService.orders wo ++ [new])
            (OrderService.outbox wo ++ [row]) (OrderService.exchange wo)
            (OrderService.active_connections wo) (OrderService.frames wo)) as ->.
  { by rewrite create_order_eq. }
  (* the relay of the order service publishes that row *)
  rewrite order_relay_poll by done. cbv zeta. cbn [fst snd OrderService.orders
    OrderService.outbox OrderService.exchange OrderService.active_connections
    OrderService.frames all_ok andb].
  rewrite (select_unprocessed_last _ row Hwo eq_refl).
  cbn [forallb accepted_prefix andb fmap list_fmap].
  rewrite drop_app_length, (bound_to_singleton "order.created" (to_message row) eq_refl).
  replace (all_ok 1%nat) with true by done. rewrite mark_all_selected.
  (* the payment consumer settles it *)
  cbn [fmap list_fmap]. rewrite PaymentProofs.consume_cons. cbn [fst snd PaymentService.consume].
  rewrite (PaymentProofs.rabbitmq_consumer_fresh hash all_ok (to_message row) wp
             (OrderService.order_created_payload oid u a) u a (JNum oid));
    [|done|by repeat split|by rewrite PaymentExtras.dedup_id_to_message|done..].
  assert (PaymentService.debit u a wp =
          (if paid then PaymentService.set_accounts
                          (alter (λ balance, balance - a) u) wp else wp,
           if paid then 1 else 0)) as ->.
  { unfold PaymentService.debit, paid.
    destruct (PaymentService.accounts wp !! u) as [b|] eqn:Hb; [|done].
    case_bool_decide; [|done]. unfold PaymentService.set_accounts. do 2 f_equal.
    apply map_eq. intros k. destruct (decide (k = u)) as [->|Hk].
    - by rewrite lookup_insert_eq, lookup_alter_eq, Hb.
    - by rewrite lookup_insert_ne, lookup_alter_ne. }
  cbn [fst snd]. unfold PaymentService.settled.
  assert ((if bool_decide (0 < (if paid then 1 else 0)) then "FINISHED" else "CANCELLED")
          = status) as -> by (subst status; by destruct paid).
  set (orow := PaymentService.outcome_row _ _ _ _).
  (* the relay of the payment service publishes the outcome *)
  rewrite payment_relay_poll by done. cbv zeta. cbn [fst snd PaymentService.accounts
    PaymentService.inbox PaymentService.outbox PaymentService.exchange all_ok andb].
  rewrite (select_unprocessed_last _ orow Hwp eq_refl).
  cbn [forallb accepted_prefix andb fmap list_fmap].
  rewrite drop_app_length,
    (bound_to_singleton "payment.processed" (to_message orow) eq_refl).
  replace (all_ok 1%nat) with true by done. rewrite mark_all_selected.
  (* the status consumer applies it and pushes it *)
  cbn [fmap list_fmap OrderService.consume_results foldl fst snd].
  rewrite (payment_result_consumer_eq all_ok ws_ok (to_message orow) _
             (PaymentService.response_payload (JNum oid) status (JNum u)) oid status u);
    [|done|by unfold PaymentService.response_payload; simplify_map_eq..].
  cbn [all_ok andb fst snd OrderService.orders OrderService.frames OrderService.outbox
    OrderService.update_status OrderService.set_orders].
  split; [|split; [|split; [|split]]].
  - rewrite fmap_app, update_status_other; cycle 1.
    { intros o Ho%next_order_id_fresh. fold oid in Ho. lia. }
    cbn. by rewrite bool_decide_eq_true_2.
  - by destruct paid.
  - done.
  - by apply mark_selected_last.
  - by apply mark_selected_last.
Qed.

Lemma placed_order_is_settled_witness :
  let run := Shop.place_order PaymentService.no_hash (λ _, true)
               (OrderService.mkOrderReq 7 "book" 100)
               OrderService.empty_world PaymentService.race_world in
  OrderService.orders run.1 = [Order.mk 1 7 "book" 100 "FINISHED"] ∧
  PaymentService.accounts run.2 !! 7 = Some 0.
Proof.
  destruct (placed_order_is_settled PaymentService.no_hash (λ _, true)
              (OrderService.mkOrderReq 7 "book" 100)
              OrderService.empty_world PaymentService.race_world) as (Ho & Ha & _).
  - constructor.
  - constructor.
  - reflexivity.
  - cbv zeta in *. rewrite Ho, Ha. split; reflexivity.
Defined.

End ShopProofs.

(** ** The shop as a whole: runs of the two services

    The order service and the payment service with the exchange between
    them, from the empty stores: the states reached by the handlers of the
    two services, and what holds in all of them. *)
Module ShopRun.
Import Shop.
Import RelayProofs RelayExtras OrderProofs OrderExtras ShopProofs.

(** *** Payloads and messages *)

Lemma response_payload_lookups o st u :
  PaymentService.response_payload o st u !! "order_id" = Some o ∧
  PaymentService.response_payload o st u !! "status" = Some (JStr st) ∧
  PaymentService.response_payload o st u !! "user_id" = Some u.
Proof. unfold PaymentService.response_payload. by simplify_map_eq. Qed.

Lemma response_payload_inj o st u o' st' u' :
  PaymentService.response_payload o st u = PaymentService.response_payload o' st' u' →
  o = o' ∧ st = st' ∧ u = u'.
Proof.
  intros Heq.
  destruct (response_payload_lookups o st u) as (Ho & Hs & Hu).
  destruct (response_payload_lookups o' st' u') as (Ho' & Hs' & Hu').
  rewrite Heq in Ho, Hs, Hu. repeat split; congruence.
Qed.

Lemma order_created_payload_lookups k u a :
  OrderService.order_created_payload k u a !! "order_id" = Some (JNum k) ∧
  OrderService.order_created_payload k u a !! "user_id" = Some (JNum u) ∧
  OrderService.order_created_payload k u a !! "amount" = Some (JNum a).
Proof. unfold OrderService.order_created_payload. by simplify_map_eq. Qed.

Lemma to_message_same_row r r' :
  same_row_but_flag r r' → to_message r' = to_message r.
Proof. intros (Hi & Hk & Hp & _). unfold to_message. by rewrite Hi, Hk, Hp. Qed.

Lemma same_rows_forward rows rows' r :
  Forall2 same_row_but_flag rows rows' → r ∈ rows →
  ∃ r', r' ∈ rows' ∧ same_row_but_flag r r'.
Proof.
  intros Hrows (j & Hj)%list_elem_of_lookup_1.
  destruct (Forall2_lookup_l _ _ _ _ _ Hrows Hj) as (r' & Hj' & Hsame).
  exists r'. split; [by eapply list_elem_of_lookup_2|done].
Qed.

Lemma same_rows_backward rows rows' r' :
  Forall2 same_row_but_flag rows rows' → r' ∈ rows' →
  ∃ r, r ∈ rows ∧ same_row_but_flag r r'.
Proof.
  intros Hrows (j & Hj)%list_elem_of_lookup_1.
  destruct (Forall2_lookup_r _ _ _ _ _ Hrows Hj) as (r & Hj' & Hsame).
  exists r. split; [by eapply list_elem_of_lookup_2|done].
Qed.

Lemma relay_sent_from_rows db_ok accepts rows m :
  m ∈ relay_sent db_ok accepts rows → ∃ r, r ∈ rows ∧ to_message r = m.
Proof.
  unfold relay_sent. destruct (db_ok 0%nat); [|by intros ?%not_elem_of_nil].
  intros (r & -> & Hr)%list_elem_of_fmap. exists r. split; [|done].
  apply select_unprocessed_spec.
  revert Hr. generalize (select_unprocessed rows). intros batch.
  induction batch as [|x batch IH]; cbn; [done|].
  destruct (accepts (to_message x)); [|by intros ?%not_elem_of_nil].
  intros [->|Hr]%elem_of_cons; [by left|right; by apply IH].
Qed.

(** *** The invariant *)

Lemma invariant_initial : invariant initial.
Proof.
  split; cbn.
  - constructor.
  - constructor.
  - by intros m ?%not_elem_of_nil.
  - by intros m ?%not_elem_of_nil.
  - by intros r ?%not_elem_of_nil.
  - by intros o ?%not_elem_of_nil.
  - by intros r r' k st st' u u' ?%not_elem_of_nil.
Qed.

(** The invariant talks about six tables only. *)
Lemma invariant_same_tables (s s' : State) :
  OrderService.orders s'.1 = OrderService.orders s.1 →
  OrderService.outbox s'.1 = OrderService.outbox s.1 →
  OrderService.exchange s'.1 = OrderService.exchange s.1 →
  PaymentService.inbox s'.2 = PaymentService.inbox s.2 →
  PaymentService.outbox s'.2 = PaymentService.outbox s.2 →
  PaymentService.exchange s'.2 = PaymentService.exchange s.2 →
  invariant s → invariant s'.
Proof.
  intros H1 H2 H3 H4 H5 H6 [I1 I2 I3 I4 I5 I6 I7].
  split; unfold every_order_announced in *; rewrite ?H1, ?H2, ?H3, ?H4, ?H5, ?H6; done.
Qed.

Lemma announced_lookup orders rows r0 :
  Forall2 announces orders rows → r0 ∈ rows →
  ∃ i o, orders !! i = Some o ∧ rows !! i = Some r0 ∧ announces o r0.
Proof.
  intros Hann (i & Hi)%list_elem_of_lookup_1.
  destruct (Forall2_lookup_r _ _ _ _ _ Hann Hi) as (o & Ho & Ha). eauto.
Qed.

Lemma announced_same_rows orders rows rows' :
  Forall2 announces orders rows → Forall2 same_row_but_flag rows rows' →
  Forall2 announces orders rows'.
Proof.
  intros Hann. revert rows'.
  induction Hann as [|o r os rs Ha _ IH]; intros rows' Hrows; inv Hrows; constructor.
  - by eapply announces_same_row.
  - by apply IH.
Qed.

Lemma announced_same_orders orders orders' rows :
  Forall2 announces orders rows → Forall2 same_order_but_status orders orders' →
  Forall2 announces orders' rows.
Proof.
  intros Hann. revert orders'.
  induction Hann as [|o r os rs Ha _ IH]; intros orders' Horders; inv Horders; constructor.
  - by eapply announces_same_order.
  - by apply IH.
Qed.

Lemma order_messages_key s m :
  invariant s → m ∈ OrderService.exchange s.1 → Message.routing_key m = "order.created".
Proof.
  intros Hinv Hm. destruct (inv_order_published s Hinv m Hm) as (r0 & Hr0 & <-).
  destruct (announced_lookup _ _ _ (inv_announced s Hinv) Hr0) as (i & o & _ & _ & Hk & _).
  done.
Qed.

Lemma payment_messages_key s m :
  invariant s → m ∈ PaymentService.exchange s.2 →
  Message.routing_key m = "payment.processed".
Proof.
  intros Hinv Hm. destruct (inv_payment_published s Hinv m Hm) as (r & Hr & <-).
  destruct (inv_results s Hinv r Hr) as (i & o & r0 & st & _ & _ & _ & Hk & _). done.
Qed.

(** What reaches the queue "order_updates" is a result of the payment
    service, and what reaches "payment_tasks" is an announcement of the order
    service. *)
Lemma order_updates_are_results s m :
  invariant s → m ∈ bound_to "payment.processed" (published s) →
  ∃ r, r ∈ PaymentService.outbox s.2 ∧ to_message r = m.
Proof.
  intros Hinv [Hk [Hm|Hm]%elem_of_app]%list_elem_of_filter.
  - by rewrite (order_messages_key s m Hinv Hm) in Hk.
  - by apply (inv_payment_published s Hinv).
Qed.

Lemma payment_tasks_are_announcements s m :
  invariant s → m ∈ bound_to "order.created" (published s) →
  ∃ r0, r0 ∈ OrderService.outbox s.1 ∧ to_message r0 = m.
Proof.
  intros Hinv [Hk [Hm|Hm]%elem_of_app]%list_elem_of_filter.
  - by apply (inv_order_published s Hinv).
  - by rewrite (payment_messages_key s m Hinv Hm) in Hk.
Qed.

(** **** Order creation *)

Lemma invariant_create_order db_ok req (s : State) :
  invariant s → invariant ((OrderService.create_order db_ok req s.1).1, s.2).
Proof.
  intros Hinv. rewrite create_order_eq. cbv zeta.
  destruct (_ && _ && _); [|by destruct s]. destruct Hinv as [I1 I2 I3 I4 I5 I6 I7].
  split; cbn [fst snd OrderService.orders OrderService.outbox OrderService.exchange].
  - rewrite fmap_app. apply NoDup_app. split; [done|]. split; [|apply NoDup_singleton].
    intros k (o & -> & Ho)%list_elem_of_fmap Hk. cbn in Hk.
    apply list_elem_of_singleton in Hk. apply next_order_id_fresh in Ho. lia.
  - unfold every_order_announced. cbn. apply Forall2_app; [done|]. by repeat constructor.
  - intros m Hm. destruct (I3 m Hm) as (r & Hr & Heq). exists r. split; [|done].
    apply elem_of_app. by left.
  - done.
  - intros r Hr. destruct (I5 r Hr) as (i & o & r0 & st & Ho & Hr0 & Hin & Hk & Hp & Hst).
    exists i, o, r0, st. split; [by apply lookup_app_l_Some|].
    split; [by apply lookup_app_l_Some|done].
  - intros o [Ho|Ho]%elem_of_app; [by apply I6|].
    apply list_elem_of_singleton in Ho as ->. by left.
  - done.
Qed.

Lemma settled_create_order db_ok req (s : State) i o :
  OrderService.orders s.1 !! i = Some o →
  OrderService.orders (OrderService.create_order db_ok req s.1).1 !! i = Some o.
Proof.
  intros Hi. rewrite create_order_eq. cbv zeta. destruct (_ && _ && _); [|done].
  cbn. by apply lookup_app_l_Some.
Qed.

(** **** The relay of the order service *)

Lemma invariant_order_relay db_ok accepts (s : State) :
  invariant s → invariant ((OrderService.outbox_processor db_ok accepts s.1).1, s.2).
Proof.
  intros [I1 I2 I3 I4 I5 I6 I7].
  destruct (order_relay_effect db_ok accepts s.1) as (Hrows & Hx & Ho & _).
  pose proof (relay_rows_same_rows db_ok accepts (OrderService.outbox s.1)) as Hsame.
  split; cbn [fst snd]; unfold every_order_announced; rewrite ?Hrows, ?Hx, ?Ho.
  - done.
  - by eapply announced_same_rows.
  - intros m Hm.
    assert (∃ r, r ∈ OrderService.outbox s.1 ∧ to_message r = m) as (r & Hr & <-).
    { apply elem_of_app in Hm as [Hm|Hm]; [by apply I3|by eapply relay_sent_from_rows]. }
    destruct (same_rows_forward _ _ _ Hsame Hr) as (r' & Hr' & Hrr').
    exists r'. split; [done|]. by apply to_message_same_row.
  - done.
  - intros r Hr. destruct (I5 r Hr) as (i & o & r0 & st & Hi & Hr0 & Hin & Hk & Hp & Hst).
    destruct (Forall2_lookup_l _ _ _ _ _ Hsame Hr0) as (r0' & Hr0' & (Hid & _)).
    exists i, o, r0', st. rewrite Hid. done.
  - done.
  - done.
Qed.

(** **** The relay of the payment service *)

Lemma invariant_payment_relay db_ok accepts (s : State) :
  invariant s → invariant (s.1, (PaymentService.outbox_processor db_ok accepts s.2).1).
Proof.
  intros [I1 I2 I3 I4 I5 I6 I7].
  destruct (payment_relay_effect db_ok accepts s.2) as (Hrows & Hx & _ & Hin).
  pose proof (relay_rows_same_rows db_ok accepts (PaymentService.outbox s.2)) as Hsame.
  split; cbn [fst snd]; rewrite ?Hrows, ?Hx, ?Hin.
  - done.
  - done.
  - done.
  - intros m Hm.
    assert (∃ r, r ∈ PaymentService.outbox s.2 ∧ to_message r = m) as (r & Hr & <-).
    { apply elem_of_app in Hm as [Hm|Hm]; [by apply I4|by eapply relay_sent_from_rows]. }
    destruct (same_rows_forward _ _ _ Hsame Hr) as (r' & Hr' & Hrr').
    exists r'. split; [done|]. by apply to_message_same_row.
  - intros r' Hr'. destruct (same_rows_backward _ _ _ Hsame Hr') as (r & Hr & (_ & Hk & Hp & _)).
    destruct (I5 r Hr) as (i & o & r0 & st & Hi & Hr0 & Hinb & Hk0 & Hp0 & Hst).
    exists i, o, r0, st. rewrite Hk, Hp. done.
  - intros o Ho. destruct (I6 o Ho) as [?|(r & u & Hr & Hp)]; [by left|right].
    destruct (same_rows_forward _ _ _ Hsame Hr) as (r' & Hr' & (_ & _ & Hp' & _)).
    exists r', u. rewrite Hp'. done.
  - intros r1' r2' k st st' u u' Hr1' Hr2' Hp1 Hp2.
    destruct (same_rows_backward _ _ _ Hsame Hr1') as (r1 & Hr1 & (_ & _ & Hp1' & _)).
    destruct (same_rows_backward _ _ _ Hsame Hr2') as (r2 & Hr2 & (_ & _ & Hp2' & _)).
    rewrite Hp1' in Hp1. rewrite Hp2' in Hp2. by eapply (I7 r1 r2).
Qed.

(** **** The status consumer *)

(** The update a delivered result asks for is the one of a result row. *)
Lemma delivered_result s m data k st :
  invariant s → m ∈ bound_to "payment.processed" (published s) →
  Message.body m = Some data →
  data !! "order_id" = Some (JNum k) → data !! "status" = Some (JStr st) →
  ∃ r u, r ∈ PaymentService.outbox s.2 ∧
    Outbox.payload r = PaymentService.response_payload (JNum k) st u.
Proof.
  intros Hinv Hm Hb Hk Hst.
  destruct (order_updates_are_results s m Hinv Hm) as (r & Hr & <-).
  destruct (inv_results s Hinv r Hr) as (i & o & r0 & st' & _ & _ & _ & _ & Hp & _).
  cbn in Hb. injection Hb as <-.
  destruct (response_payload_lookups (JNum (Order.id o)) st' (JNum (Order.user_id o)))
    as (Ho' & Hs' & _).
  rewrite Hp, Ho' in Hk. rewrite Hp, Hs' in Hst.
  injection Hk as <-. injection Hst as <-. eauto.
Qed.

Lemma settled_status_delivery db_ok ws_ok m (s : State) i o :
  invariant s → m ∈ bound_to "payment.processed" (published s) →
  OrderService.orders s.1 !! i = Some o → Order.status o ≠ "NEW" →
  OrderService.orders (OrderService.payment_result_consumer db_ok ws_ok m s.1).1 !! i
    = Some o.
Proof.
  intros Hinv Hm Hi Hnew.
  destruct (payment_result_consumer_orders db_ok ws_ok m s.1)
    as [->|(data & k & st & Hb & Hk & Hst & ->)]; [done|].
  apply update_status_same; [done|]. intros Hid.
  destruct (delivered_result s m data k st Hinv Hm Hb Hk Hst) as (r & u & Hr & Hp).
  destruct (inv_settled s Hinv o) as [?|(r' & u' & Hr' & Hp')];
    [by eapply list_elem_of_lookup_2|done|].
  rewrite Hid in Hp'. by apply (inv_one_result s Hinv r' r k _ _ u' u).
Qed.

Lemma invariant_status_delivery db_ok ws_ok m (s : State) :
  invariant s → m ∈ bound_to "payment.processed" (published s) →
  invariant ((OrderService.payment_result_consumer db_ok ws_ok m s.1).1, s.2).
Proof.
  intros Hinv Hm. pose proof Hinv as [I1 I2 I3 I4 I5 I6 I7].
  destruct (payment_result_consumer_effect db_ok ws_ok m s.1) as (Hsame & Hrows & Hx & _).
  assert (Order.id <$> OrderService.orders
            (OrderService.payment_result_consumer db_ok ws_ok m s.1).1
          = Order.id <$> OrderService.orders s.1) as Hids.
  { apply list_eq. intros i. rewrite !list_lookup_fmap.
    destruct (OrderService.orders s.1 !! i) as [o|] eqn:Hi.
    - destruct (Forall2_lookup_l _ _ _ _ _ Hsame Hi) as (o' & -> & (Hid & _)).
      cbn. by rewrite Hid.
    - apply Forall2_length in Hsame. apply lookup_ge_None in Hi.
      rewrite (proj2 (lookup_ge_None _ _)); [done|]. by rewrite <- Hsame. }
  split; cbn [fst snd]; unfold every_order_announced; rewrite ?Hrows, ?Hx.
  - by rewrite Hids.
  - by eapply announced_same_orders.
  - done.
  - done.
  - intros r Hr. destruct (I5 r Hr) as (i & o & r0 & st & Hi & Hr0 & Hin & Hk & Hp & Hst).
    destruct (Forall2_lookup_l _ _ _ _ _ Hsame Hi) as (o' & Hi' & (Hid & Hu & _)).
    exists i, o', r0, st. rewrite Hid, Hu. done.
  - intros o' Ho'.
    destruct (payment_result_consumer_orders db_ok ws_ok m s.1)
      as [Heq|(data & k & st & Hb & Hk & Hst & Heq)]; rewrite Heq in Ho'; [by apply I6|].
    cbn in Ho'. apply list_elem_of_fmap in Ho' as (o & -> & Ho).
    case_bool_decide as Hid; [|by apply I6].
    right. destruct (delivered_result s m data k st Hinv Hm Hb Hk Hst) as (r & u & Hr & Hp).
    exists r, u. cbn. by rewrite Hid.
  - done.
Qed.

(** **** The payment consumer *)

Lemma invariant_payment_delivery hash db_ok m (s : State) :
  invariant s → m ∈ bound_to "order.created" (published s) →
  invariant (s.1, (PaymentService.rabbitmq_consumer hash db_ok m s.2).1).
Proof.
  intros Hinv Hm. pose proof Hinv as [I1 I2 I3 I4 I5 I6 I7].
  destruct (PaymentProofs.rabbitmq_consumer_cases hash db_ok m s.2)
    as [(data & u & a & oid & Hb & Hwf & Hfresh & H0 & H1 & H2)|[-> _]]; [|by destruct s].
  rewrite (PaymentProofs.rabbitmq_consumer_fresh hash db_ok m s.2 data u a oid) by done.
  (* the announcement that was delivered, and its order *)
  destruct (payment_tasks_are_announcements s m Hinv Hm) as (r0 & Hr0 & <-).
  destruct (announced_lookup _ _ _ I2 Hr0) as (i & o & Hi & Hr0i & (_ & Hp0)).
  rewrite PaymentExtras.dedup_id_to_message in *.
  cbn in Hb. injection Hb as <-. destruct Hwf as (Hu & _ & Ho). rewrite Hp0 in Hu, Ho.
  destruct (order_created_payload_lookups (Order.id o) (Order.user_id o) (Order.amount o))
    as (Ho' & Hu' & _).
  rewrite Hu' in Hu. rewrite Ho' in Ho. injection Hu as <-. injection Ho as <-.
  clear Ho' Hu'. unfold PaymentService.settled.
  set (status := if bool_decide (0 < _) then "FINISHED" else "CANCELLED").
  assert (settled_status status) as Hstatus.
  { subst status. unfold settled_status. case_bool_decide; eauto. }
  assert (is_result (OrderService.orders s.1) (OrderService.outbox s.1)
            (<[pretty (Outbox.id r0) := true]> (PaymentService.inbox s.2))
            (PaymentService.outcome_row (PaymentService.outbox s.2) (JNum (Order.id o))
               status (JNum (Order.user_id o)))) as Hnew.
  { exists i, o, r0, status. rewrite lookup_insert_eq. repeat split; done. }
  split; cbn [fst snd PaymentService.inbox PaymentService.outbox PaymentService.exchange].
  - done.
  - done.
  - done.
  - intros m Hm'. destruct (I4 m Hm') as (r & Hr & Heq). exists r. split; [|done].
    apply elem_of_app. by left.
  - intros r [Hr|Hr]%elem_of_app.
    + destruct (I5 r Hr) as (i' & o' & r0' & st & Hi' & Hr0' & Hin & Hk & Hp & Hst).
      exists i', o', r0', st. repeat split; try done.
      destruct (decide (pretty (Outbox.id r0) = pretty (Outbox.id r0'))) as [->|Hne].
      * by rewrite lookup_insert_eq.
      * by rewrite lookup_insert_ne.
    + by apply list_elem_of_singleton in Hr as ->.
  - intros o' Ho'. destruct (I6 o' Ho') as [?|(r & u' & Hr & Hp)]; [by left|right].
    exists r, u'. split; [|done]. apply elem_of_app. by left.
  - assert (∀ r k st u, r ∈ PaymentService.outbox s.2 →
              Outbox.payload r = PaymentService.response_payload (JNum k) st u →
              k ≠ Order.id o) as Hother.
    { intros r k st u Hr Hp Hk.
      destruct (I5 r Hr) as (i' & o' & r0' & st' & Hi' & Hr0' & Hin & _ & Hp' & _).
      rewrite Hp' in Hp. apply response_payload_inj in Hp as (Hid & _). injection Hid as Hid.
      assert (i' = i) as ->.
      { eapply (NoDup_lookup _ _ _ _ I1); rewrite list_lookup_fmap.
        - by rewrite Hi'.
        - rewrite Hi. cbn. congruence. }
      rewrite Hr0i in Hr0'. injection Hr0' as <-.
      rewrite Hfresh in Hin. by destruct Hin. }
    intros r r' k st st' u' u'' [Hr|Hr]%elem_of_app [Hr'|Hr']%elem_of_app Hp Hp'.
    + by eapply (I7 r r').
    + apply list_elem_of_singleton in Hr' as ->. cbn in Hp'.
      apply response_payload_inj in Hp' as (Hid & _). injection Hid as Hid.
      by destruct (Hother r k st u' Hr Hp).
    + apply list_elem_of_singleton in Hr as ->. cbn in Hp.
      apply response_payload_inj in Hp as (Hid & _). injection Hid as Hid.
      by destruct (Hother r' k st' u'' Hr' Hp').
    + apply list_elem_of_singleton in Hr as ->. apply list_elem_of_singleton in Hr' as ->.
      rewrite Hp in Hp'. by apply response_payload_inj in Hp' as (_ & ? & _).
Qed.

(** **** The requests that leave the six tables alone *)

Lemma payment_api_tables db_ok user_id amount w :
  (PaymentService.inbox (PaymentService.create_account db_ok user_id w).1 = PaymentService.inbox w ∧
   PaymentService.outbox (PaymentService.create_account db_ok user_id w).1 = PaymentService.outbox w ∧
   PaymentService.exchange (PaymentService.create_account db_ok user_id w).1
     = PaymentService.exchange w) ∧
  (PaymentService.inbox (PaymentService.topup db_ok user_id amount w).1 = PaymentService.inbox w ∧
   PaymentService.outbox (PaymentService.topup db_ok user_id amount w).1 = PaymentService.outbox w ∧
   PaymentService.exchange (PaymentService.topup db_ok user_id amount w).1
     = PaymentService.exchange w).
Proof.
  unfold PaymentService.create_account, PaymentService.add_account, PaymentService.topup,
    session_begin, execute, rollback, PaymentService.world_store, mbind, tx_bind, mret, tx_ret.
  destruct (db_ok 0%nat), (db_ok 1%nat), (PaymentService.accounts w !! user_id); done.
Qed.

Lemma hub_api_tables websocket user_id db_ok w :
  (OrderService.list_orders db_ok w).1 = w ∧
  (∀ w', w' = (OrderService.connect websocket user_id w).1 ∨
         w' = (OrderService.disconnect websocket user_id w).1 →
     OrderService.orders w' = OrderService.orders w ∧
     OrderService.outbox w' = OrderService.outbox w ∧
     OrderService.exchange w' = OrderService.exchange w).
Proof.
  split.
  - unfold OrderService.list_orders, execute. by destruct (db_ok 0%nat).
  - by intros w' [->| ->].
Qed.

Lemma invariant_step hash a (s : State) : invariant s → invariant (step hash a s).
Proof.
  intros Hinv. destruct a as [db_ok req|db_ok|ws u|ws u|db_ok accepts|db_ok ws_ok n
                             |db_ok u|db_ok u amt|db_ok accepts|db_ok n]; cbn [step].
  - by apply invariant_create_order.
  - rewrite (proj1 (hub_api_tables 0%nat 0 db_ok s.1)). by destruct s.
  - eapply invariant_same_tables; [..|exact Hinv]; done.
  - eapply invariant_same_tables; [..|exact Hinv]; done.
  - by apply invariant_order_relay.
  - destruct (bound_to "payment.processed" (published s) !! n) as [m|] eqn:Hn; [|done].
    apply invariant_status_delivery; [done|]. by eapply list_elem_of_lookup_2.
  - destruct (payment_api_tables db_ok u 0 s.2) as [(H1 & H2 & H3) _].
    eapply invariant_same_tables; [..|exact Hinv]; done.
  - destruct (payment_api_tables db_ok u amt s.2) as [_ (H1 & H2 & H3)].
    eapply invariant_same_tables; [..|exact Hinv]; done.
  - by apply invariant_payment_relay.
  - destruct (bound_to "order.created" (published s) !! n) as [m|] eqn:Hn; [|done].
    apply invariant_payment_delivery; [done|]. by eapply list_elem_of_lookup_2.
Qed.

Lemma same_order_refl o : same_order_but_status o o.
Proof. done. Qed.

(** A step keeps every order in its place, changes at most its status, and
    does not change a status that is not "NEW". *)
Lemma order_step hash a (s : State) i o :
  invariant s → OrderService.orders s.1 !! i = Some o →
  ∃ o', OrderService.orders (step hash a s).1 !! i = Some o' ∧
        same_order_but_status o o' ∧ (Order.status o ≠ "NEW" → o' = o).
Proof.
  intros Hinv Hi.
  destruct a as [db_ok req|db_ok|ws u|ws u|db_ok accepts|db_ok ws_ok n
                |db_ok u|db_ok u amt|db_ok accepts|db_ok n]; cbn [step fst];
    try (by exists o).
  - exists o. split; [by apply settled_create_order|done].
  - exists o. by rewrite (proj1 (hub_api_tables 0%nat 0 db_ok s.1)).
  - exists o. by destruct (order_relay_effect db_ok accepts s.1) as (_ & _ & -> & _).
  - destruct (bound_to "payment.processed" (published s) !! n) as [m|] eqn:Hn;
      [|by exists o].
    apply list_elem_of_lookup_2 in Hn. cbn [fst].
    destruct (payment_result_consumer_effect db_ok ws_ok m s.1) as (Hsame & _).
    destruct (Forall2_lookup_l _ _ _ _ _ Hsame Hi) as (o' & Hi' & Ho').
    exists o'. split; [done|]. split; [done|]. intros Hnew.
    rewrite (settled_status_delivery db_ok ws_ok m s i o Hinv Hn Hi Hnew) in Hi'. congruence.
  - destruct (bound_to "order.created" (published s) !! n); by exists o.
Qed.

Lemma status_domain (s : State) o :
  invariant s → o ∈ OrderService.orders s.1 →
  Order.status o = "NEW" ∨ settled_status (Order.status o).
Proof.
  intros Hinv Ho. destruct (inv_settled s Hinv o Ho) as [?|(r & u & Hr & Hp)]; [by left|right].
  destruct (inv_results s Hinv r Hr) as (i & o' & r0 & st & _ & _ & _ & _ & Hp' & Hst).
  rewrite Hp' in Hp. by apply response_payload_inj in Hp as (_ & <- & _).
Qed.

Lemma invariant_run hash acts (s : State) : invariant s → invariant (run hash acts s).
Proof.
  revert s. induction acts as [|a acts IH]; intros s Hinv; [done|].
  cbn. apply IH. by apply invariant_step.
Qed.

Lemma order_run hash acts (s : State) i o :
  invariant s → OrderService.orders s.1 !! i = Some o →
  ∃ o', OrderService.orders (run hash acts s).1 !! i = Some o' ∧
        same_order_but_status o o' ∧ (Order.status o ≠ "NEW" → o' = o).
Proof.
  revert s o. induction acts as [|a acts IH]; intros s o Hinv Hi; [by exists o|].
  destruct (order_step hash a s i o Hinv Hi) as (o1 & Hi1 & Hsame1 & Hkeep1).
  destruct (IH (step hash a s) o1 (invariant_step hash a s Hinv) Hi1)
    as (o' & Hi' & Hsame' & Hkeep').
  exists o'. split; [done|]. split.
  - destruct Hsame1 as (? & ? & ? & ?), Hsame' as (? & ? & ? & ?). repeat split; congruence.
  - intros Hnew. rewrite (Hkeep1 Hnew) in Hkeep'. by apply Hkeep'.
Qed.

(** C5: in every state the shop reaches from the empty stores, by any
    sequence of requests to the two APIs, polls of the two relays and
    deliveries to the two consumers, with the stores, the broker and the
    sockets failing at will, an order's status is "NEW", "FINISHED" or
    "CANCELLED"; and an order that is FINISHED or CANCELLED there keeps its
    row, status included, through every further such sequence, in which the
    status consumer is handed, first or again and in any order, any of the
    "payment.processed" messages that reached its queue.  Every other order
    keeps its place and everything but its status, which stays one of the
    three.  So the only changes of a status are from NEW to FINISHED and
    from NEW to CANCELLED, at most one per order; and the update the
    consumer runs, run twice, is the update run once. *)
Theorem settled_status_is_final hash acts more i o :
  OrderService.orders (run hash acts initial).1 !! i = Some o →
  (Order.status o = "NEW" ∨ settled_status (Order.status o)) ∧
  (settled_status (Order.status o) →
     OrderService.orders (run hash more (run hash acts initial)).1 !! i = Some o) ∧
  (∃ o', OrderService.orders (run hash more (run hash acts initial)).1 !! i = Some o' ∧
         same_order_but_status o o' ∧
         (Order.status o' = "NEW" ∨ settled_status (Order.status o'))) ∧
  (∀ k st w, OrderService.update_status k st (OrderService.update_status k st w).1
               = OrderService.update_status k st w).
Proof.
  intros Hi. set (s := run hash acts initial) in *. set (s' := run hash more s).
  assert (invariant s) as Hinv by apply invariant_run, invariant_initial.
  destruct (order_run hash more s i o Hinv Hi) as (o' & Hi' & Hsame & Hkeep).
  fold s' in Hi'. split; [|split; [|split]].
  - eapply status_domain; [done|]. by eapply list_elem_of_lookup_2.
  - intros [Hst|Hst]; rewrite <- (Hkeep ltac:(by rewrite Hst)); done.
  - exists o'. split; [done|]. split; [done|].
    eapply (status_domain s'); [by apply invariant_run|]. by eapply list_elem_of_lookup_2.
  - apply update_status_idempotent.
Qed.

Lemma settled_status_is_final_witness :
  OrderService.orders (run PaymentService.no_hash book_order_settles initial).1 !! 0%nat
    = Some (Order.mk 1 7 "book" 40 "FINISHED") ∧
  settled_status (Order.status (Order.mk 1 7 "book" 40 "FINISHED")) ∧
  OrderService.orders
    (run PaymentService.no_hash redeliveries_and_a_second_order
       (run PaymentService.no_hash book_order_settles initial)).1 !! 0%nat
    = Some (Order.mk 1 7 "book" 40 "FINISHED").
Proof.
  assert (OrderService.orders (run PaymentService.no_hash book_order_settles initial).1 !! 0%nat
          = Some (Order.mk 1 7 "book" 40 "FINISHED")) as Hi by (vm_compute; reflexivity).
  split; [exact Hi|]. split; [left; reflexivity|].
  exact (proj1 (proj2 (settled_status_is_final PaymentService.no_hash book_order_settles
                         redeliveries_and_a_second_order 0%nat
                         (Order.mk 1 7 "book" 40 "FINISHED") Hi))
           (or_introl eq_refl)).
Defined.

(** The run of the two samples, evaluated: the book stays FINISHED through
    the redeliveries, and the piano, which the balance does not pay, ends
    CANCELLED. *)
Example redeliveries_and_a_second_order_run :
  OrderService.orders
    (run PaymentService.no_hash redeliveries_and_a_second_order
       (run PaymentService.no_hash book_order_settles initial)).1
    = [Order.mk 1 7 "book" 40 "FINISHED"; Order.mk 2 7 "piano" 100 "CANCELLED"].
Proof. vm_compute. reflexivity. Qed.

End ShopRun.
